(** * A shallow embedding of the terminal ADS-B radar display

    The development follows [aircraft_display_with_radar.c]: the dual-channel
    character grid ([Matrix]), the synthetic weather generator, the three
    canvas writers, the geographic projection, the haversine distance, the
    polar sweep that reveals the pending grid into the visible one, the
    decoder of the aircraft feed with its download buffer, and the loop of
    [main] that ties them together.

    Conventions of the model.
    - A C [int] is a [Z].  Arithmetic that leaves the 32-bit range for some
      input (the coordinate arithmetic of the canvas writers, the canvas
      width, the squared radius of the sweep) goes through [CInt.wrap], the
      two's-complement reduction; arithmetic on values bounded by the canvas
      size is written on [Z] directly.
    - A C [double] is a real number ([R]) wherever the program only
      compares it or casts it to [int]; the cast [(int)d] is truncation
      toward zero ([double_to_int]), total on the reals.
    - [calculate_distance], whose results are compared for exact equality,
      is embedded on IEEE 754 binary64 numbers (the primitive [float], every
      operation rounded to nearest even as the C compiler emits it without
      fused operations); the C library's [sin], [cos] and [atan2] are a
      parameter of the model ([Libm]).
    - [char **data] and [WeatherIntensity **weather] are lists of rows; a load
      or a store outside the allocated grid has no defined behaviour in C and
      is [None] in the model.
    - What the program takes from its environment is an input of the model:
      the values of [rand()], the clock, the parsed response of the feed, and
      the formatting of [%.1f]. *)

From Stdlib Require Import Floats.
From Stdlib Require Import ZArith Reals Lra Lia Ascii String DecimalString.
From Stdlib Require Import Zfloor.
From stdpp Require Import base tactics option list list_numbers strings.

Local Open Scope Z_scope.

(** ** Machine integers *)

Module CInt.

Definition INT_MIN : Z := - 2 ^ 31.
Definition INT_MAX : Z := 2 ^ 31 - 1.

(** Reduction of a mathematical integer to a signed 32-bit [int]. *)
Definition wrap (z : Z) : Z := (z + 2 ^ 31) mod 2 ^ 32 - 2 ^ 31.

Definition add (a b : Z) : Z := wrap (a + b).
Definition sub (a b : Z) : Z := wrap (a - b).
Definition mul (a b : Z) : Z := wrap (a * b).

Definition in_range (z : Z) : Prop := INT_MIN ≤ z ≤ INT_MAX.

End CInt.

(** ** Doubles and the cast to [int] *)

Abbreviation double := R (only parsing).

(** [(int)d]: the fractional part is discarded (truncation toward zero). *)
Definition double_to_int (d : double) : Z :=
  if Rle_dec 0 d then Zfloor d else Zceil d.
Arguments double_to_int d%_R.

(** ** Two-dimensional arrays

    [g[row][col]] for a row-major array of rows.  The indices are C [int]s;
    a negative index or one past the allocation is an access outside the
    array, which the model reports as [None]. *)

Section Grid.
Context {A : Type}.
Implicit Types (g : list (list A)) (row col h w : Z) (v : A).

Definition load g row col : option A :=
  if decide (0 ≤ row ∧ 0 ≤ col)
  then r ← g !! Z.to_nat row; r !! Z.to_nat col
  else None.

Definition store g row col v : option (list (list A)) :=
  if decide (0 ≤ row ∧ 0 ≤ col)
  then r ← g !! Z.to_nat row;
       _ ← r !! Z.to_nat col;
       Some (<[Z.to_nat row := <[Z.to_nat col := v]> r]> g)
  else None.

(** [rect g h w]: [g] has [h] rows of [w] cells each. *)
Definition rect g h w : Prop :=
  0 ≤ h ∧ 0 ≤ w ∧
  length g = Z.to_nat h ∧ Forall (λ r, length r = Z.to_nat w) g.

Definition in_grid h w row col : Prop := 0 ≤ row < h ∧ 0 ≤ col < w.

End Grid.

(** ** The canvas *)

(** Weather intensity levels (the enumerators of [WeatherIntensity]). *)
Abbreviation WeatherIntensity := Z (only parsing).
Definition WEATHER_NONE : WeatherIntensity := 0.
Definition WEATHER_LIGHT : WeatherIntensity := 1.
Definition WEATHER_MODERATE : WeatherIntensity := 2.
Definition WEATHER_HEAVY : WeatherIntensity := 3.
Definition WEATHER_VERY_HEAVY : WeatherIntensity := 4.
Definition WEATHER_INTENSE : WeatherIntensity := 5.
Definition WEATHER_EXTREME : WeatherIntensity := 6.

Record Matrix := {
  height : Z;                            (* number of rows *)
  width : Z;                             (* number of columns *)
  data : list (list ascii);
  weather : list (list WeatherIntensity)
}.

Definition with_data (m : Matrix) (d : list (list ascii)) : Matrix :=
  {| height := height m; width := width m; data := d; weather := weather m |}.

Definition with_weather (m : Matrix) (w : list (list WeatherIntensity)) : Matrix :=
  {| height := height m; width := width m; data := data m; weather := w |}.

(** [matrix->data[row][col] = c] and [matrix->weather[row][col] = i]. *)
Definition store_data (m : Matrix) (row col : Z) (c : ascii) : option Matrix :=
  with_data m <$> store (data m) row col c.

Definition store_weather (m : Matrix) (row col : Z) (i : WeatherIntensity)
  : option Matrix :=
  with_weather m <$> store (weather m) row col i.

(** Both channels of the cell at [(row, col)]. *)
Definition cell (m : Matrix) (row col : Z)
  : option ascii * option WeatherIntensity :=
  (load (data m) row col, load (weather m) row col).

Definition matrix_wf (m : Matrix) : Prop :=
  rect (data m) (height m) (width m) ∧ rect (weather m) (height m) (width m) ∧
  CInt.in_range (height m) ∧ CInt.in_range (width m).

Definition same_dims (a b : Matrix) : Prop :=
  height a = height b ∧ width a = width b.

Definition blank : ascii := " "%char.

Definition create_square_matrix (n : Z) : Matrix :=
  let h := n in
  let w := CInt.mul n 2 in
  {| height := h; width := w;
     data := replicate (Z.to_nat h) (replicate (Z.to_nat w) blank);
     weather := replicate (Z.to_nat h) (replicate (Z.to_nat w) WEATHER_NONE) |}.

Definition clear_matrix (m : Matrix) : Matrix :=
  {| height := height m; width := width m;
     data := replicate (Z.to_nat (height m)) (replicate (Z.to_nat (width m)) blank);
     weather := replicate (Z.to_nat (height m))
                          (replicate (Z.to_nat (width m)) WEATHER_NONE) |}.

(** ** Text buffers

    A [char buffer[size]] filled by [snprintf]: the characters of the
    formatted text up to its first NUL, cut to [size - 1] characters. *)

Definition NUL : ascii := Ascii.zero.

Fixpoint c_string (s : list ascii) : list ascii :=
  match s with
  | [] => []
  | c :: rest => if decide (c = NUL) then [] else c :: c_string rest
  end.

Definition snprintf (size : nat) (formatted : string) : list ascii :=
  take (size - 1) (c_string (list_ascii_of_string formatted)).

(** ["%d"] *)
Definition format_d (z : Z) : string :=
  DecimalString.NilZero.string_of_int (Z.to_int z).

(** ["%.8s"]: at most eight characters of the C string. *)
Definition format_s8 (s : string) : string :=
  string_of_list_ascii (take 8 (c_string (list_ascii_of_string s))).

(** ** Canvas writers *)

(** Display "X" at given coordinates. *)
Definition display_symbol (m : Matrix) (x y : Z) : option Matrix :=
  let scaled_x := CInt.mul x 2 in
  if decide (0 ≤ scaled_x ∧ scaled_x < width m ∧ 0 ≤ y ∧ y < height m)
  then store_data m y scaled_x "X"%char
  else Some m.

(** Display "/" one line above and one position to the right. *)
Definition display_slash (m : Matrix) (x y : Z) : option Matrix :=
  let scaled_x := CInt.mul (CInt.add x 1) 2 in
  let slash_y := CInt.sub y 1 in
  if decide (0 ≤ scaled_x ∧ scaled_x < width m ∧ 0 ≤ slash_y ∧ slash_y < height m)
  then store_data m slash_y scaled_x "/"%char
  else Some m.

(** The loop
    [for (i = 0; buffer[i] != '\0' && tab_offset + i < width; i++)
       data[row][tab_offset + i] = buffer[i];]
    entered at index [i] with [buffer] holding the characters from [i] on. *)
Fixpoint text_loop (row tab_offset : Z) (buffer : list ascii) (i : Z)
    (m : Matrix) : option Matrix :=
  match buffer with
  | [] => Some m
  | c :: rest =>
      if decide (tab_offset + i < width m)
      then store_data m row (tab_offset + i) c
             ≫= text_loop row tab_offset rest (i + 1)
      else Some m
  end.

Section Display.

(** The text [printf] produces for ["%.1f"]; its digits play no part in
    the properties below. *)
Variable format_f1 : double → string.

(** Display information text aligned with the slash. *)
Definition display_info (m : Matrix) (x y : Z) (callsign : string)
    (altitude_ft speed_kts : Z) (distance_nm : double) : option Matrix :=
  let slash_x := CInt.mul (CInt.add x 1) 2 in
  let text_y := CInt.sub y 5 in
  if decide (0 ≤ text_y ∧ text_y < height m) then
    let tab_offset := slash_x in
    (* Callsign line *)
    let buffer := snprintf 100 (format_s8 callsign) in
    m ← text_loop text_y tab_offset buffer 0 m;
    (* Altitude line *)
    let buffer := snprintf 100 ("Alt:" ++ format_d altitude_ft ++ "ft") in
    m ← text_loop (text_y + 1) tab_offset buffer 0 m;
    (* Speed line *)
    let buffer := snprintf 100 ("Spd:" ++ format_d speed_kts ++ "kt") in
    m ← text_loop (text_y + 2) tab_offset buffer 0 m;
    (* Distance line *)
    let buffer := snprintf 100 ("Dst:" ++ format_f1 distance_nm ++ "nm") in
    text_loop (text_y + 3) tab_offset buffer 0 m
  else Some m.

(** The four text rows of a label, top to bottom, as [display_info]
    formats them. *)
Definition label_lines (callsign : string) (altitude_ft speed_kts : Z)
    (distance_nm : double) : list (list ascii) :=
  [ snprintf 100 (format_s8 callsign);
    snprintf 100 ("Alt:" ++ format_d altitude_ft ++ "ft");
    snprintf 100 ("Spd:" ++ format_d speed_kts ++ "kt");
    snprintf 100 ("Dst:" ++ format_f1 distance_nm ++ "nm") ].

End Display.

(** ** Loops *)

(** [for (i = lo; i < hi; i++) body], threading the state and stopping at
    the first access outside an array. *)
Fixpoint for_each {S : Type} (body : Z → S → option S) (l : list Z) (s : S)
  : option S :=
  match l with
  | [] => Some s
  | i :: l => body i s ≫= for_each body l
  end.

Definition for_range {S : Type} (lo hi : Z) (body : Z → S → option S) (s : S)
  : option S :=
  for_each body (seqZ lo (hi - lo)) s.

(** ** Geo projector *)

Definition M_PI : double := 3.14159265358979323846%R.

(** LSZH (Zurich Airport) coordinates *)
Definition LSZH_LAT : double := 47.458056%R.
Definition LSZH_LON : double := 8.548056%R.
Definition RANGE_NM : double := 20.0%R.

(** Convert lat/lon to screen coordinates. *)
Definition latlon_to_screen (lat lon : double) (width height : Z) : Z * Z :=
  let lat_diff := (lat - LSZH_LAT)%R in
  let lon_diff := (lon - LSZH_LON)%R in
  let y_nm := (lat_diff * 60.0)%R in
  let x_nm := (lon_diff * 60.0 * cos (LSZH_LAT * M_PI / 180.0))%R in
  let screen_x :=
    (width ÷ 4) + double_to_int (x_nm * IZR (width ÷ 4) / RANGE_NM) in
  let screen_y :=
    (height ÷ 2) - double_to_int (y_nm * IZR (height ÷ 2) / RANGE_NM) in
  let screen_x := if decide (screen_x < 0) then 0 else screen_x in
  let screen_x :=
    if decide (screen_x >= width ÷ 2) then (width ÷ 2) - 1 else screen_x in
  let screen_y := if decide (screen_y < 6) then 6 else screen_y in
  let screen_y := if decide (screen_y >= height) then height - 1 else screen_y in
  (screen_x, screen_y).

(** ** Haversine distance

    The distance is computed on binary64 numbers.  [sin], [cos] and [atan2]
    come from the C library; [sqrt] and the four arithmetic operations are
    the correctly rounded ones of IEEE 754. *)


#[local] Set Warnings "-inexact-float".

Module Binary64.
Definition M_PI : float := 3.14159265358979323846%float.
End Binary64.

Definition EARTH_RADIUS_NM : float := 3440.065%float.

#[local] Set Warnings "inexact-float".








(** A finite sample of the C library: the values of [sin], [cos] and
    [atan2] at the arguments that the distances between the points (1, 2),
    (3, 4) and (3, 6) reach, namely the angles of 1, 2 and 3 degrees and
    the three pairs of square roots.  Each value is the correctly rounded
    one, see [libm_sample_correctly_rounded] below. *)
Definition sin_sample : list (float * float) :=
  [ (0, 0); (-0, -0);
    (0x1.1df46a2529d39p-6, 0x1.1df0b2b89dd1ep-6);
    (-0x1.1df46a2529d39p-6, -0x1.1df0b2b89dd1ep-6);
    (0x1.1df46a2529d39p-5, 0x1.1de58c9f7dc27p-5);
    (-0x1.1df46a2529d39p-5, -0x1.1de58c9f7dc27p-5) ]%float.

Definition cos_sample : list (float * float) :=
  [ (0x1.1df46a2529d39p-6, 0x1.ffec097f5af8ap-1);
    (0x1.acee9f37bebd5p-5, 0x1.ff4c5ed12e61dp-1) ]%float.

Definition atan2_sample : list (float * float * float) :=
  [ (0, 1, 0);
    (0x1.943a0215674bcp-6, 0x1.ffd819ffcbcafp-1, 0x1.94448269a91afp-6);
    (0x1.943a0215674bbp-6, 0x1.ffd819ffcbcafp-1, 0x1.94448269a91aep-6);
    (0x1.3f750c34d2aabp-5, 0x1.ff9c4d108b7b1p-1, 0x1.3f89ca14bc895p-5)
  ]%float.


(** The real number a binary64 number stands for (0 for an infinity or a
    NaN), and half a unit in its last place. *)
Definition SF2R (x : spec_float) : R :=
  match x with
  | S754_finite s m e =>
      if (0 <=? e)%Z then IZR (cond_Zopp s (Z.pos m) * 2 ^ e)
      else (IZR (cond_Zopp s (Z.pos m)) / IZR (2 ^ (- e)))%R
  | _ => 0%R
  end.

Definition float_value (x : float) : R := SF2R (Prim2SF x).

Definition half_ulp (x : float) : R :=
  match Prim2SF x with
  | S754_finite _ _ e =>
      if (1 <=? e)%Z then IZR (2 ^ (e - 1)) else (1 / IZR (2 ^ (1 - e)))%R
  | _ => 0%R
  end.

(** [value] is a binary64 number nearest to the real number [exact]. *)
Definition correctly_rounded (exact : R) (value : float) : Prop :=
  (Rabs (exact - float_value value) <= half_ulp value)%R.

(** The partial sums of the sine and cosine series that enclose the
    functions on [0, 2]. *)
Definition sin_lower (a : R) : R :=
  (a - a^3 / 6 + a^5 / 120 - a^7 / 5040 + a^9 / 362880 - a^11 / 39916800)%R.
Definition sin_upper (a : R) : R := (sin_lower a + a^13 / 6227020800)%R.
Definition cos_lower (a : R) : R :=
  (1 - a^2 / 2 + a^4 / 24 - a^6 / 720 + a^8 / 40320 - a^10 / 3628800)%R.
Definition cos_upper (a : R) : R := (cos_lower a + a^12 / 479001600)%R.

(** ** Weather field generator *)

(** The values returned by the successive calls of [rand()] after seeding. *)
Definition rand_stream := nat → Z.

Definition rand_ok (rand : rand_stream) : Prop := ∀ k, 0 ≤ rand k.

(** [sqrt(dx * dx / 4.0 + dy * dy)]: elliptical distance of cell [(x, y)]
    from the weather cell centred at [(cell_x, cell_y)]. *)
Definition cell_distance (cell_x cell_y x y : Z) : double :=
  let dx := x - cell_x * 2 in
  let dy := y - cell_y in
  sqrt (IZR (dx * dx) / 4.0 + IZR (dy * dy)).

(** [(int)(intensity * fade)] with [fade = 1.0 - distance / radius]. *)
Definition faded_intensity (radius : Z) (intensity : WeatherIntensity)
    (distance : double) : WeatherIntensity :=
  let fade := (1.0 - distance / IZR radius)%R in
  double_to_int (IZR intensity * fade).

(** Body of the two nested loops over the canvas for one weather cell. *)
Definition weather_cell_body (cell_x cell_y radius : Z)
    (intensity : WeatherIntensity) (y x : Z) (m : Matrix) : option Matrix :=
  let distance := cell_distance cell_x cell_y x y in
  if Rlt_dec distance (IZR radius) then
    let cell_intensity := faded_intensity radius intensity distance in
    current ← load (weather m) y x;
    if decide (cell_intensity > current)
    then store_weather m y x cell_intensity
    else Some m
  else Some m.

(** What one weather cell offers to the canvas cell [(x, y)]: the faded
    intensity inside the ellipse, nothing outside. *)
Definition weather_candidate (cell_x cell_y radius : Z)
    (intensity : WeatherIntensity) (x y : Z) : option WeatherIntensity :=
  let distance := cell_distance cell_x cell_y x y in
  if Rlt_dec distance (IZR radius)
  then Some (faded_intensity radius intensity distance)
  else None.

(** The stored intensity after the comparison
    [if (cell_intensity > weather[y][x]) weather[y][x] = cell_intensity]. *)
Definition merge_weather (current : WeatherIntensity)
    (candidate : option WeatherIntensity) : WeatherIntensity :=
  match candidate with
  | Some cell_intensity =>
      if decide (cell_intensity > current) then cell_intensity else current
  | None => current
  end.

(** Every stored intensity is one of the seven levels. *)
Definition weather_in_range (m : Matrix) : Prop :=
  ∀ y x cur, load (weather m) y x = Some cur →
    WEATHER_NONE ≤ cur ≤ WEATHER_EXTREME.

Definition draw_weather_cell (cell_x cell_y radius : Z)
    (intensity : WeatherIntensity) (m : Matrix) : option Matrix :=
  for_range 0 (height m) (λ y m,
    for_range 0 (width m) (λ x m,
      weather_cell_body cell_x cell_y radius intensity y x m) m) m.

(** One weather cell: four draws from [rand()], then the canvas loops.  The
    state is the number of [rand()] calls made so far and the canvas. *)
Definition weather_cell_step (rand : rand_stream) (center_x center_y : Z)
    (s : nat * Matrix) : option (nat * Matrix) :=
  let '(k, m) := s in
  let cell_x := center_x - 30 + Z.rem (rand k) 60 in
  let cell_y := center_y - 30 + Z.rem (rand (k + 1)%nat) 60 in
  let radius := 5 + Z.rem (rand (k + 2)%nat) 15 in
  let intensity := 1 + Z.rem (rand (k + 3)%nat) 5 in
  m ← draw_weather_cell cell_x cell_y radius intensity m;
  Some ((k + 4)%nat, m).

Definition fetch_weather_data (rand : rand_stream) (m : Matrix) : option Matrix :=
  let center_x := width m ÷ 4 in
  let center_y := height m ÷ 2 in
  let num_cells := 3 + Z.rem (rand 0%nat) 5 in
  snd <$> for_range 0 num_cells
            (λ _ s, weather_cell_step rand center_x center_y s) (1%nat, m).

(** ** Sweep compositor *)

Definition num_angles : Z := 720.

(** [(int)sqrt(center_x * center_x + center_y * center_y) + 1] *)
Definition max_radius (center_x center_y : Z) : Z :=
  CInt.add
    (double_to_int
       (sqrt (IZR (CInt.add (CInt.mul center_x center_x)
                            (CInt.mul center_y center_y)))))
    1.

(** The maximum radius in the words of the specification:
    [ceil(sqrt(centerX² + centerY²)) + 1]. *)
Definition spec_max_radius (center_x center_y : Z) : Z :=
  Zceil (sqrt (IZR (center_x * center_x + center_y * center_y))) + 1.

Definition sweep_theta (angle_step : Z) : double :=
  (IZR (angle_step * 2) * M_PI / IZR num_angles)%R.

Definition sweep_x (center_x : Z) (theta : double) (radius : Z) : Z :=
  center_x + double_to_int (IZR radius * cos theta).

Definition sweep_y (center_y : Z) (theta : double) (radius : Z) : Z :=
  center_y + double_to_int (IZR radius * sin theta).

(** Radius [r] of the angle step [theta] lands on column [x], row [y]. *)
Definition beam_hits (center_x center_y : Z) (theta : double) (r x y : Z)
  : Prop :=
  sweep_x center_x theta r = x ∧ sweep_y center_y theta r = y.

(** Body of the radius loop: copy both channels of the cell under the beam. *)
Definition sweep_radius (source : Matrix) (center_x center_y : Z)
    (theta : double) (radius : Z) (dest : Matrix) : option Matrix :=
  let x := sweep_x center_x theta radius in
  let y := sweep_y center_y theta radius in
  if decide (0 ≤ x ∧ x < width dest ∧ 0 ≤ y ∧ y < height dest) then
    c ← load (data source) y x;
    dest ← store_data dest y x c;
    i ← load (weather source) y x;
    store_weather dest y x i
  else Some dest.

(** The radius loop of one angle step, for radii [0 .. upto]. *)
Definition sweep_upto (source : Matrix) (center_x center_y : Z)
    (theta : double) (upto : Z) (dest : Matrix) : option Matrix :=
  for_range 0 (upto + 1) (sweep_radius source center_x center_y theta) dest.

(** One angle step as both [sonar_sweep_update] and [main] perform it. *)
Definition sweep_step (source : Matrix) (angle_step : Z) (dest : Matrix)
  : option Matrix :=
  let center_x := width dest ÷ 2 in
  let center_y := height dest ÷ 2 in
  sweep_upto source center_x center_y (sweep_theta angle_step)
             (max_radius center_x center_y) dest.

(** Sonar sweep update: a full rotation (rendering and the delay between
    steps leave the canvases untouched and are not part of the model). *)
Definition sonar_sweep_update (dest source : Matrix) : option Matrix :=
  for_range 0 num_angles (sweep_step source) dest.

(** ** The control loop *)

Record Aircraft := {
  callsign : string;
  latitude : double;
  longitude : double;
  altitude : double;      (* in meters *)
  velocity : double;      (* in m/s *)
  squawk : Z;
  distance : double       (* distance from LSZH in nm *)
}.

Definition altitude_ft (ac : Aircraft) : Z :=
  double_to_int (altitude ac * 3.28084).

Definition speed_kts (ac : Aircraft) : Z :=
  double_to_int (velocity ac * 1.94384).

Record State := {
  screen : Matrix;            (* the visible canvas *)
  temp_screen : Matrix;       (* the pending canvas *)
  current_angle : Z;
  last_fetch_time : Z;
  last_weather_fetch : Z
}.

(** Both canvases are allocated with the same dimensions. *)
Definition state_wf (st : State) : Prop :=
  matrix_wf (screen st) ∧ matrix_wf (temp_screen st) ∧
  same_dims (temp_screen st) (screen st).

Definition fetch_interval : Z := 10.
Definition weather_fetch_interval : Z := 60.

Section Main.

Variable format_f1 : double → string.

(** Body of the loop over the fetched aircraft. *)
Definition draw_aircraft (temp_screen : Matrix) (ac : Aircraft)
  : option Matrix :=
  let '(screen_x, screen_y) :=
    latlon_to_screen (latitude ac) (longitude ac)
                     (width temp_screen) (height temp_screen) in
  let altitude_ft := altitude_ft ac in
  let speed_kts := speed_kts ac in
  if decide (altitude_ft ≤ 1800 ∨ speed_kts ≤ 60) then Some temp_screen
  else
    m ← display_symbol temp_screen screen_x screen_y;
    m ← display_slash m screen_x screen_y;
    display_info format_f1 m screen_x screen_y (callsign ac)
                 altitude_ft speed_kts (distance ac).

Fixpoint draw_all (temp_screen : Matrix) (aircraft_list : list Aircraft)
  : option Matrix :=
  match aircraft_list with
  | [] => Some temp_screen
  | ac :: rest => draw_aircraft temp_screen ac ≫= λ m, draw_all m rest
  end.

(** The branch of [main] taken when [fetch_aircraft_data] returns 0. *)
Definition redraw_aircraft (temp_screen : Matrix)
    (aircraft_list : list Aircraft) : option Matrix :=
  let aircraft_count := Z.of_nat (length aircraft_list) in
  (* Clear only the aircraft data, keep weather *)
  let m := with_data temp_screen
             (replicate (Z.to_nat (height temp_screen))
                        (replicate (Z.to_nat (width temp_screen)) blank)) in
  (* Display title at top *)
  let title := snprintf 100
    ("LSZH - Aircraft: " ++ format_d aircraft_count ++
     " | Weather: MeteoSwiss Radar (Simulated)") in
  m ← text_loop 0 0 title 0 m;
  (* Draw center marker for LSZH *)
  let center_x_marker := width m ÷ 4 in
  let center_y_marker := height m ÷ 2 in
  m ← (if decide (center_y_marker >= 0 ∧ center_y_marker < height m ∧
                  center_x_marker * 2 < width m)
       then store_data m center_y_marker (center_x_marker * 2) "+"%char
       else Some m);
  (* Display each aircraft *)
  draw_all m aircraft_list.

(** The aircraft refresh of one loop iteration.  [fetched] is what
    [fetch_aircraft_data] delivers when it is called: [None] for the
    return value -1, the aircraft list for 0. *)
Definition aircraft_refresh (current_time : Z)
    (fetched : option (list Aircraft)) (temp_screen : Matrix)
    (last_fetch_time : Z) : option (Matrix * Z) :=
  if decide (current_time - last_fetch_time >= fetch_interval) then
    m ← match fetched with
        | Some aircraft_list => redraw_aircraft temp_screen aircraft_list
        | None => Some temp_screen
        end;
    Some (m, current_time)
  else Some (temp_screen, last_fetch_time).

Definition weather_refresh (current_time : Z) (rand : rand_stream)
    (temp_screen : Matrix) (last_weather_fetch : Z) : option (Matrix * Z) :=
  if decide (current_time - last_weather_fetch >= weather_fetch_interval) then
    m ← fetch_weather_data rand temp_screen;
    Some (m, current_time)
  else Some (temp_screen, last_weather_fetch).

(** One iteration of [while(1)]: [current_time] is the clock reading,
    [rand] the generator as seeded at that moment. *)
Definition main_iteration (current_time : Z) (rand : rand_stream)
    (fetched : option (list Aircraft)) (st : State) : option State :=
  '(temp, weather_time) ←
     weather_refresh current_time rand (temp_screen st) (last_weather_fetch st);
  '(temp, fetch_time) ←
     aircraft_refresh current_time fetched temp (last_fetch_time st);
  (* Perform one sonar sweep step *)
  visible ← sweep_step temp (current_angle st) (screen st);
  Some {| screen := visible;
          temp_screen := temp;
          current_angle := Z.rem (current_angle st + 1) num_angles;
          last_fetch_time := fetch_time;
          last_weather_fetch := weather_time |}.

Definition initial_state : State :=
  {| screen := clear_matrix (create_square_matrix 120);
     temp_screen := clear_matrix (create_square_matrix 120);
     current_angle := 0;
     last_fetch_time := 0;
     last_weather_fetch := 0 |}.

End Main.

(** ** The weather cells of a generation *)

(** The parameters [(cell_x, cell_y, radius, intensity)] of the weather
    cells one generation draws, in order: [count] cells, the first taking
    its four values from call [k] of [rand()] on. *)
Fixpoint weather_cells_from (rand : rand_stream) (center_x center_y : Z)
    (k count : nat) : list (Z * Z * Z * Z) :=
  match count with
  | O => []
  | S count =>
      (center_x - 30 + Z.rem (rand k) 60,
       center_y - 30 + Z.rem (rand (k + 1)%nat) 60,
       5 + Z.rem (rand (k + 2)%nat) 15,
       1 + Z.rem (rand (k + 3)%nat) 5)
      :: weather_cells_from rand center_x center_y (k + 4) count
  end.

Definition generated_cells (rand : rand_stream) (m : Matrix)
  : list (Z * Z * Z * Z) :=
  weather_cells_from rand (width m ÷ 4) (height m ÷ 2) 1
    (Z.to_nat (3 + Z.rem (rand 0%nat) 5)).

(** The intensity of canvas cell [(x, y)] after the weather cells [cells]
    have been merged into it one after the other. *)
Definition merge_all (cells : list (Z * Z * Z * Z)) (x y : Z)
    (current : WeatherIntensity) : WeatherIntensity :=
  foldl (λ acc '(cell_x, cell_y, radius, intensity),
           merge_weather acc (weather_candidate cell_x cell_y radius intensity x y))
        current cells.

(** ** Decoding the aircraft feed

    The values of the JSON library: a [json_t *] is an [option json], the
    null pointer being [None].  The accessors behave as the library
    documents them: they answer "no" or the null pointer on a null pointer
    and on a value of another type. *)

#[local] Set Warnings "-register-all".
Inductive json :=
| JNull
| JTrue
| JFalse
| JInteger (z : Z)
| JReal (d : double)
| JString (s : string)
| JArray (elements : list json)
| JObject (members : list (string * json)).
#[local] Set Warnings "register-all".

Definition json_object_get (object : option json) (key : string) : option json :=
  match object with
  | Some (JObject members) =>
      snd <$> List.find (λ kv, if decide (kv.1 = key) then true else false) members
  | _ => None
  end.

Definition json_is_array (j : option json) : bool :=
  match j with Some (JArray _) => true | _ => false end.

Definition json_array_size (j : option json) : nat :=
  match j with Some (JArray elements) => length elements | _ => O end.

Definition json_array_get (array : option json) (index : nat) : option json :=
  match array with
  | Some (JArray elements) => elements !! index
  | _ => None
  end.

Definition json_is_string (j : option json) : bool :=
  match j with Some (JString _) => true | _ => false end.

Definition json_is_number (j : option json) : bool :=
  match j with Some (JInteger _) | Some (JReal _) => true | _ => false end.

Definition json_string_value (j : option json) : string :=
  match j with Some (JString s) => s | _ => EmptyString end.

Definition json_number_value (j : option json) : double :=
  match j with
  | Some (JInteger z) => IZR z
  | Some (JReal d) => d
  | _ => 0%R
  end.

(** [while (len > 0 && callsign[len-1] == ' ') callsign[--len] = '\0';] *)
Fixpoint trim_trailing_spaces (s : list ascii) : list ascii :=
  match s with
  | [] => []
  | c :: rest =>
      match trim_trailing_spaces rest with
      | [] => if decide (c = " "%char) then [] else [c]
      | trimmed => c :: trimmed
      end
  end.

Section Decode.

(** [calculate_distance(LSZH_LAT, LSZH_LON, latitude, longitude)] with its
    result read as a real number: the decoder stores it and compares it
    with [RANGE_NM], it does not look at how it is computed. *)
Variable reference_distance : double → double → double.

(** One pass of the loop over the states: the record written to the slot
    [aircraft_list[*count]], and whether [*count] is advanced past it. *)
Definition decode_state (state : option json) : option Aircraft :=
  let callsign_json := json_array_get state 1 in
  let lon_json := json_array_get state 5 in
  let lat_json := json_array_get state 6 in
  let altitude_json := json_array_get state 7 in
  let velocity_json := json_array_get state 9 in
  if negb (json_is_string callsign_json) || negb (json_is_number lat_json) ||
     negb (json_is_number lon_json) || negb (json_is_number altitude_json)
  then None
  else
    let cs := json_string_value callsign_json in
    (* strncpy into char callsign[16], then the terminator *)
    let callsign := take 15 (c_string (list_ascii_of_string cs)) in
    let callsign := trim_trailing_spaces callsign in
    let latitude := json_number_value lat_json in
    let longitude := json_number_value lon_json in
    let distance := reference_distance latitude longitude in
    let ac := {| callsign := string_of_list_ascii callsign;
                 latitude := latitude;
                 longitude := longitude;
                 altitude := json_number_value altitude_json;
                 velocity := if json_is_number velocity_json
                             then json_number_value velocity_json else 0.0%R;
                 squawk := 0;
                 distance := distance |} in
    if Rle_dec distance RANGE_NM then Some ac else None.

(** [fetch_aircraft_data] from the parsed response on.  [root] is what
    [json_loads] returns for the downloaded text, [None] also standing for
    a failed download; the result is [None] for the return value -1 and
    the first [*count] entries of [*aircraft_list] for 0. *)
Definition fetch_aircraft_data (root : option json) : option (list Aircraft) :=
  match root with
  | None => None
  | Some _ =>
      let states := json_object_get root "states" in
      if negb (json_is_array states) then None
      else
        Some (omap (λ i, decode_state (json_array_get states i))
                   (seq 0 (json_array_size states)))
  end.

End Decode.

(** ** The title row *)

(** The title text of a refresh that found [aircraft_count] aircraft. *)
Definition title_text (aircraft_count : Z) : list ascii :=
  snprintf 100
    ("LSZH - Aircraft: " ++ format_d aircraft_count ++
     " | Weather: MeteoSwiss Radar (Simulated)").

(** ** Runs of the control loop *)

(** The inputs of one iteration of [while(1)]: the clock reading, the
    generator as seeded at that moment, and what [fetch_aircraft_data]
    delivers if it is called. *)
Record Tick := {
  tick_time : Z;
  tick_rand : rand_stream;
  tick_fetched : option (list Aircraft)
}.

(** The iterations of [while(1)] for a finite run of inputs. *)
Fixpoint main_loop (format_f1 : double → string) (ticks : list Tick)
    (st : State) : option State :=
  match ticks with
  | [] => Some st
  | t :: rest =>
      main_iteration format_f1 (tick_time t) (tick_rand t) (tick_fetched t) st
        ≫= main_loop format_f1 rest
  end.

(** ** The download buffer

    [struct MemoryStruct]: the block [memory] points to, byte by byte, and
    [size].  A byte that was never written is [None].  [size_t] arithmetic
    is written on [Z]: the sizes are those of blocks that exist. *)
Module MemoryStruct.
Record t := {
  memory : list (option ascii);
  size : Z
}.
End MemoryStruct.

(** [chunk.memory = malloc(1); chunk.size = 0;] *)
Definition chunk_init : MemoryStruct.t :=
  {| MemoryStruct.memory := [None]; MemoryStruct.size := 0 |}.

(** Callback function for curl.  [contents] holds [size * nmemb] bytes;
    [realloc_ok] tells whether [realloc] finds memory.  The result is the
    return value and the buffer afterwards. *)
Definition WriteMemoryCallback (contents : list ascii) (size nmemb : Z)
    (realloc_ok : bool) (mem : MemoryStruct.t) : Z * MemoryStruct.t :=
  let realsize := size * nmemb in
  if realloc_ok then
    let ptr := resize (Z.to_nat (MemoryStruct.size mem + realsize + 1)) None
                      (MemoryStruct.memory mem) in
    (* memcpy(&(mem->memory[mem->size]), contents, realsize) *)
    let copied := list_inserts (Z.to_nat (MemoryStruct.size mem))
                    (Some <$> take (Z.to_nat realsize) contents) ptr in
    let size' := MemoryStruct.size mem + realsize in
    (realsize,
     {| MemoryStruct.memory := <[Z.to_nat size' := Some NUL]> copied;
        MemoryStruct.size := size' |})
  else (0, mem).

(** The transfer of a response body that arrives in the pieces [chunks],
    each handed to the callback as [nmemb] items of size 1. *)
Definition receive (chunks : list (list ascii)) (mem : MemoryStruct.t)
  : MemoryStruct.t :=
  foldl (λ mem contents,
           (WriteMemoryCallback contents 1 (Z.of_nat (length contents)) true mem).2)
        mem chunks.

(** The buffer holds the bytes [body], [size] many, and their terminator. *)
Definition holds (mem : MemoryStruct.t) (body : list ascii) : Prop :=
  MemoryStruct.memory mem = (Some <$> body) ++ [Some NUL] ∧
  MemoryStruct.size mem = Z.of_nat (length body).

(** * Properties *)

(** ** The model at work on small canvases *)

Example wrap_overflow : CInt.mul 1073741824 2 = CInt.INT_MIN.
Proof. reflexivity. Qed.

Example format_d_examples :
  format_d 35000 = "35000"%string ∧ format_d (-12) = "-12"%string ∧
  format_d 0 = "0"%string.
Proof. by vm_compute. Qed.

Example snprintf_cuts :
  snprintf 4 "LSZH - Aircraft" = ["L"; "S"; "Z"]%char ∧
  snprintf 100 (format_s8 "SWISS1234X") = ["S"; "W"; "I"; "S"; "S"; "1"; "2"; "3"]%char.
Proof. by vm_compute. Qed.

Example create_square_matrix_2 :
  create_square_matrix 2 =
    {| height := 2; width := 4;
       data := [[" "; " "; " "; " "]; [" "; " "; " "; " "]]%char;
       weather := [[0; 0; 0; 0]; [0; 0; 0; 0]] |}.
Proof. reflexivity. Qed.

Example display_symbol_small :
  data <$> display_symbol (create_square_matrix 2) 1 1 =
    Some [[" "; " "; " "; " "]; [" "; " "; "X"; " "]]%char ∧
  display_symbol (create_square_matrix 2) 2 1 = Some (create_square_matrix 2) ∧
  display_symbol (create_square_matrix 2) (-1) 1 = Some (create_square_matrix 2).
Proof. by vm_compute. Qed.

Example display_slash_small :
  data <$> display_slash (create_square_matrix 2) 0 1 =
    Some [[" "; " "; "/"; " "]; [" "; " "; " "; " "]]%char ∧
  display_slash (create_square_matrix 2) 0 0 = Some (create_square_matrix 2).
Proof. by vm_compute. Qed.

Example text_loop_clipped :
  data <$> text_loop 1 2 ["A"; "l"; "t"; ":"]%char 0 (create_square_matrix 2) =
    Some [[" "; " "; " "; " "]; [" "; " "; "A"; "l"]]%char.
Proof. by vm_compute. Qed.

Example display_info_small :
  data <$> display_info (λ _, "0.5"%string) (create_square_matrix 6) 3 5
             "SWR1" 3500 250 0.5%R =
    Some [ [" "; " "; " "; " "; " "; " "; " "; " "; "S"; "W"; "R"; "1"];
           [" "; " "; " "; " "; " "; " "; " "; " "; "A"; "l"; "t"; ":"];
           [" "; " "; " "; " "; " "; " "; " "; " "; "S"; "p"; "d"; ":"];
           [" "; " "; " "; " "; " "; " "; " "; " "; "D"; "s"; "t"; ":"];
           [" "; " "; " "; " "; " "; " "; " "; " "; " "; " "; " "; " "];
           [" "; " "; " "; " "; " "; " "; " "; " "; " "; " "; " "; " "] ]%char.
Proof. reflexivity. Qed.

(** ** Machine integers *)

Module CIntFacts.
Import CInt.

Lemma wrap_in_range z : in_range (wrap z).
Proof.
  unfold in_range, wrap, INT_MIN, INT_MAX.
  pose proof (Z.mod_pos_bound (z + 2 ^ 31) (2 ^ 32) eq_refl).
  change (2 ^ 32) with (2 * 2 ^ 31) in *. lia.
Qed.

Lemma wrap_small z : in_range z → wrap z = z.
Proof.
  unfold in_range, wrap, INT_MIN, INT_MAX. intros Hz.
  rewrite Z.mod_small; [lia|].
  change (2 ^ 32) with (2 * 2 ^ 31). lia.
Qed.

End CIntFacts.

(** ** The cast to [int] *)

Lemma double_to_int_IZR z : double_to_int (IZR z) = z.
Proof.
  unfold double_to_int. destruct (Rle_dec 0 (IZR z)).
  - apply ZfloorZ.
  - unfold Zceil. rewrite <- opp_IZR, ZfloorZ. lia.
Qed.

Example double_to_int_truncates :
  double_to_int 2.5 = 2 ∧ double_to_int (-2.5) = -2.
Proof.
  unfold double_to_int. split.
  - destruct (Rle_dec 0 2.5) as [_|Hn]; [|lra]. apply Zfloor_eq. lra.
  - destruct (Rle_dec 0 (-2.5)) as [Hp|_]; [lra|]. apply Zceil_eq. lra.
Qed.

Lemma double_to_int_nonneg d z :
  (IZR z <= d < IZR z + 1)%R → 0 ≤ z → double_to_int d = z.
Proof.
  intros Hd Hz. unfold double_to_int.
  apply IZR_le in Hz. destruct (Rle_dec 0 d) as [_|Hn]; [|lra].
  by apply Zfloor_eq.
Qed.

Lemma double_to_int_bounds d lo hi :
  (IZR lo <= d <= IZR hi)%R → lo ≤ double_to_int d ≤ hi.
Proof.
  intros [Hlo Hhi]. unfold double_to_int. destruct (Rle_dec 0 d).
  - split; [by apply Zfloor_lub|].
    apply le_IZR. etrans; [apply Zfloor_bound|done].
  - unfold Zceil. split.
    + apply le_IZR. etrans; [exact Hlo|]. apply Zceil_bound.
    + assert (- hi ≤ Zfloor (- d)); [|lia].
      apply Zfloor_lub. rewrite opp_IZR. lra.
Qed.

(** ** Loads and stores *)

Section GridFacts.
Context {A : Type}.
Implicit Types (g : list (list A)) (row col h w : Z) (v : A).

Lemma rect_row g h w row :
  rect g h w → 0 ≤ row < h →
  ∃ r, g !! Z.to_nat row = Some r ∧ length r = Z.to_nat w.
Proof.
  intros (Hh & Hw & Hlen & Hrows) Hrow.
  destruct (lookup_lt_is_Some_2 g (Z.to_nat row)) as [r Hr]; [lia|].
  exists r. split; [done|].
  by eapply (Forall_lookup_1 _ _ _ _ Hrows).
Qed.

Lemma load_in_grid g h w row col :
  rect g h w → in_grid h w row col → is_Some (load g row col).
Proof.
  intros Hg [Hrow Hcol]. unfold load.
  destruct (rect_row g h w row Hg Hrow) as (r & Hr & Hlen).
  rewrite decide_True by lia. rewrite Hr. simpl.
  apply lookup_lt_is_Some_2. lia.
Qed.

Lemma load_outside g h w row col :
  rect g h w → ¬ in_grid h w row col → load g row col = None.
Proof.
  intros (Hh & Hw & Hlen & Hrows) Hout. unfold load, in_grid in *.
  case_decide as Hnn; [|done].
  destruct (g !! Z.to_nat row) as [r|] eqn:Hr; [|done]. simpl.
  apply lookup_ge_None.
  pose proof (lookup_lt_Some _ _ _ Hr).
  rewrite (Forall_lookup_1 _ _ _ _ Hrows Hr). lia.
Qed.

Lemma store_in_grid g h w row col v :
  rect g h w → in_grid h w row col → is_Some (store g row col v).
Proof.
  intros Hg [Hrow Hcol]. unfold store.
  destruct (rect_row g h w row Hg Hrow) as (r & Hr & Hlen).
  rewrite decide_True by lia. rewrite Hr. simpl.
  destruct (lookup_lt_is_Some_2 r (Z.to_nat col)) as [c Hc]; [lia|].
  rewrite Hc. by eexists.
Qed.

Lemma store_outside g h w row col v :
  rect g h w → ¬ in_grid h w row col → store g row col v = None.
Proof.
  intros Hg Hout. pose proof (load_outside g h w row col Hg Hout) as Hl.
  unfold load, store in *. case_decide; [|done].
  destruct (g !! Z.to_nat row) as [r|]; [|done]. simpl in *. by rewrite Hl.
Qed.

Lemma store_rect g g' h w row col v :
  rect g h w → store g row col v = Some g' → rect g' h w.
Proof.
  intros (Hh & Hw & Hlen & Hrows) Hst. unfold store in Hst.
  case_decide; [|done].
  destruct (g !! Z.to_nat row) as [r|] eqn:Hr; [|done]. simpl in Hst.
  destruct (r !! Z.to_nat col); [|done]. simplify_eq/=.
  repeat split; try done.
  - by rewrite length_insert.
  - apply Forall_insert; [done|]. rewrite length_insert.
    by eapply (Forall_lookup_1 _ _ _ _ Hrows).
Qed.

Lemma load_store g g' row col v row' col' :
  store g row col v = Some g' →
  load g' row' col' =
    if decide (row' = row ∧ col' = col) then Some v else load g row' col'.
Proof.
  unfold store, load. intros Hst.
  case_decide as Hnn; [|done].
  destruct (g !! Z.to_nat row) as [r|] eqn:Hr; [|done]. simpl in Hst.
  destruct (r !! Z.to_nat col) as [c|] eqn:Hc; [|done]. simplify_eq/=.
  pose proof (lookup_lt_Some _ _ _ Hr). pose proof (lookup_lt_Some _ _ _ Hc).
  destruct (decide (row' = row ∧ col' = col)) as [[-> ->]|Heq].
  - rewrite decide_True by done.
    rewrite list_lookup_insert_eq by done. simpl.
    by rewrite list_lookup_insert_eq.
  - case_decide as Hnn'; [|done].
    destruct (decide (row' = row)) as [->|Hne].
    + rewrite list_lookup_insert_eq by done. rewrite Hr. simpl.
      apply list_lookup_insert_ne. lia.
    + rewrite list_lookup_insert_ne by lia. done.
Qed.

End GridFacts.

Lemma store_data_wf m m' row col c :
  matrix_wf m → store_data m row col c = Some m' →
  matrix_wf m' ∧ same_dims m' m ∧ weather m' = weather m.
Proof.
  intros (Hd & Hw & Hh & Hc) Hst. unfold store_data in Hst.
  destruct (store (data m) row col c) as [d|] eqn:Hs; simplify_eq/=.
  split; [split_and!; simpl; [by eapply store_rect | done..] | done].
Qed.

Lemma store_weather_wf m m' row col i :
  matrix_wf m → store_weather m row col i = Some m' →
  matrix_wf m' ∧ same_dims m' m ∧ data m' = data m.
Proof.
  intros (Hd & Hw & Hh & Hc) Hst. unfold store_weather in Hst.
  destruct (store (weather m) row col i) as [d|] eqn:Hs; simplify_eq/=.
  split; [split_and!; simpl; [done | by eapply store_rect | done..] | done].
Qed.

Lemma replicate_rect {A} (x : A) h w :
  0 ≤ h → 0 ≤ w → rect (replicate (Z.to_nat h) (replicate (Z.to_nat w) x)) h w.
Proof.
  intros Hh Hw. repeat split; try done.
  - by rewrite length_replicate.
  - apply Forall_replicate. by rewrite length_replicate.
Qed.

Lemma load_replicate {A} (x : A) h w row col :
  in_grid h w row col →
  load (replicate (Z.to_nat h) (replicate (Z.to_nat w) x)) row col = Some x.
Proof.
  intros [Hr Hc]. unfold load. rewrite decide_True by lia.
  rewrite lookup_replicate_2 by lia. simpl.
  apply lookup_replicate_2. lia.
Qed.

Lemma create_square_matrix_wf n :
  0 ≤ n ≤ CInt.INT_MAX → 0 ≤ CInt.mul n 2 → matrix_wf (create_square_matrix n).
Proof.
  intros Hn Hw. split_and!; simpl.
  - apply replicate_rect; lia.
  - apply replicate_rect; lia.
  - unfold CInt.in_range, CInt.INT_MIN. lia.
  - apply CIntFacts.wrap_in_range.
Qed.

Lemma clear_matrix_wf m : matrix_wf m → matrix_wf (clear_matrix m).
Proof.
  intros ((Hh & Hw & _) & _ & ? & ?). split_and!; simpl; try done.
  - by apply replicate_rect.
  - by apply replicate_rect.
Qed.

Lemma matrix_wf_dims m : matrix_wf m → 0 ≤ height m ∧ 0 ≤ width m.
Proof. intros ((Hh & Hw & _) & _). done. Qed.


(** ** Loops *)

(** Invariant rule for [for_each]: [P done s] relates the state to the
    list of indices already processed. *)
Lemma for_each_inv {S : Type} (body : Z → S → option S)
    (P : list Z → S → Prop) (l : list Z) (s : S) :
  P [] s →
  (∀ done i s, i ∈ l → P done s →
     ∃ s', body i s = Some s' ∧ P (done ++ [i]) s') →
  ∃ s', for_each body l s = Some s' ∧ P l s'.
Proof.
  intros Hinit Hstep.
  cut (∀ done s, P done s → ∃ s', for_each body l s = Some s' ∧ P (done ++ l) s').
  { intros Hgen. apply (Hgen [] s Hinit). }
  clear s Hinit. induction l as [|i l IH]; intros done s HP; simpl.
  - exists s. by rewrite app_nil_r.
  - destruct (Hstep done i s) as (s1 & Hbody & HP1); [left|done|].
    rewrite Hbody. simpl.
    destruct (IH (λ d j t Hj, Hstep d j t (list_elem_of_further _ _ _ Hj))
                 (done ++ [i]) s1 HP1) as (s' & Hrun & HP').
    exists s'. split; [done|]. by rewrite <- app_assoc in HP'.
Qed.

Lemma for_range_inv {S : Type} (body : Z → S → option S)
    (P : list Z → S → Prop) (lo hi : Z) (s : S) :
  P [] s →
  (∀ done i s, lo ≤ i < hi → P done s →
     ∃ s', body i s = Some s' ∧ P (done ++ [i]) s') →
  ∃ s', for_range lo hi body s = Some s' ∧ P (seqZ lo (hi - lo)) s'.
Proof.
  intros Hinit Hstep. apply for_each_inv; [done|].
  intros done i t Hi. apply Hstep. apply elem_of_seqZ in Hi. lia.
Qed.

(** ** Binary64 arithmetic *)

Section FloatFacts.
Local Open Scope float_scope.

Example binary64_constants :
  Binary64.M_PI = 0x1.921fb54442d18p+1 ∧
  EARTH_RADIUS_NM = 0x1.ae02147ae147bp+11.
Proof. split; reflexivity. Qed.













End FloatFacts.

(** ** The sample of the C library *)

Section Sample.
Local Open Scope R_scope.

Lemma INR_fact_step n r : INR (fact n) = r → INR (fact (S n)) = INR (S n) * r.
Proof. intros <-. by rewrite fact_simpl, mult_INR. Qed.

Ltac fact_step :=
  rewrite INR_IZR_INZ; cbv [Z.of_nat Pos.of_succ_nat Pos.succ]; lra.

Lemma INR_fact_13 :
  INR (fact 1) = 1 ∧ INR (fact 2) = 2 ∧ INR (fact 3) = 6 ∧ INR (fact 4) = 24 ∧
  INR (fact 5) = 120 ∧ INR (fact 6) = 720 ∧ INR (fact 7) = 5040 ∧
  INR (fact 8) = 40320 ∧ INR (fact 9) = 362880 ∧ INR (fact 10) = 3628800 ∧
  INR (fact 11) = 39916800 ∧ INR (fact 12) = 479001600 ∧
  INR (fact 13) = 6227020800.
Proof.
  assert (∀ n r k, INR (fact n) = r → INR (S n) * r = k → INR (fact (S n)) = k)
    as Hstep by (intros n r k Hr <-; by apply INR_fact_step).
  assert (INR (fact 0) = 1) as H0 by done.
  pose proof (Hstep 0%nat 1 1 H0 ltac:(simpl; lra)) as H1.
  pose proof (Hstep 1%nat 1 2 H1 ltac:(fact_step)) as H2.
  pose proof (Hstep 2%nat 2 6 H2 ltac:(fact_step)) as H3.
  pose proof (Hstep 3%nat 6 24 H3 ltac:(fact_step)) as H4.
  pose proof (Hstep 4%nat 24 120 H4 ltac:(fact_step)) as H5.
  pose proof (Hstep 5%nat 120 720 H5 ltac:(fact_step)) as H6.
  pose proof (Hstep 6%nat 720 5040 H6 ltac:(fact_step)) as H7.
  pose proof (Hstep 7%nat 5040 40320 H7 ltac:(fact_step)) as H8.
  pose proof (Hstep 8%nat 40320 362880 H8 ltac:(fact_step)) as H9.
  pose proof (Hstep 9%nat 362880 3628800 H9 ltac:(fact_step)) as H10.
  pose proof (Hstep 10%nat 3628800 39916800 H10 ltac:(fact_step)) as H11.
  pose proof (Hstep 11%nat 39916800 479001600 H11 ltac:(fact_step)) as H12.
  pose proof (Hstep 12%nat 479001600 6227020800 H12 ltac:(fact_step)) as H13.
  by split_and!.
Qed.

(** The partial sums of the alternating series enclose the sine and the
    cosine. *)
Lemma sin_taylor a : 0 <= a <= 2 → sin_lower a <= sin a <= sin_upper a.
Proof.
  intros Ha. pose proof (pre_sin_bound a 2 ltac:(lra) ltac:(lra)) as Hb.
  destruct INR_fact_13 as (F1&F2&F3&F4&F5&F6&F7&F8&F9&F10&F11&F12&F13).
  unfold sin_approx, sin_term in Hb.
  change (2 * 2 + 1)%nat with 5%nat in Hb. change (2 * (2 + 1))%nat with 6%nat in Hb.
  cbn [sum_f_R0] in Hb.
  change (2 * 0 + 1)%nat with 1%nat in Hb. change (2 * 1 + 1)%nat with 3%nat in Hb.
  change (2 * 2 + 1)%nat with 5%nat in Hb. change (2 * 3 + 1)%nat with 7%nat in Hb.
  change (2 * 4 + 1)%nat with 9%nat in Hb. change (2 * 5 + 1)%nat with 11%nat in Hb.
  change (2 * 6 + 1)%nat with 13%nat in Hb.
  rewrite F1, F3, F5, F7, F9, F11, F13 in Hb.
  unfold sin_upper, sin_lower. lra.
Qed.

Lemma cos_taylor a : 0 <= a <= 2 → cos_lower a <= cos a <= cos_upper a.
Proof.
  intros Ha. pose proof (pre_cos_bound a 2 ltac:(lra) ltac:(lra)) as Hb.
  destruct INR_fact_13 as (F1&F2&F3&F4&F5&F6&F7&F8&F9&F10&F11&F12&F13).
  unfold cos_approx, cos_term in Hb.
  change (2 * 2 + 1)%nat with 5%nat in Hb. change (2 * (2 + 1))%nat with 6%nat in Hb.
  cbn [sum_f_R0] in Hb.
  change (2 * 0)%nat with 0%nat in Hb. change (2 * 1)%nat with 2%nat in Hb.
  change (2 * 2)%nat with 4%nat in Hb. change (2 * 3)%nat with 6%nat in Hb.
  change (2 * 4)%nat with 8%nat in Hb. change (2 * 5)%nat with 10%nat in Hb.
  change (2 * 6)%nat with 12%nat in Hb.
  rewrite F2, F4, F6, F8, F10, F12 in Hb. change (INR (fact 0)) with 1 in Hb.
  unfold cos_upper, cos_lower. lra.
Qed.

(** An enclosure of the arctangent from enclosures of the tangent. *)
Lemma atan_between q lo hi :
  0 < q → 0 < lo → hi < 1 → lo <= hi →
  sin_upper lo < q * cos_lower lo → q * cos_upper hi < sin_lower hi →
  lo < atan q < hi.
Proof.
  intros Hq Hlo Hhi Hle Hbelow Habove. pose proof PI2_1 as Hpi.
  destruct (sin_taylor lo) as [_ Hs1]; [lra|].
  destruct (cos_taylor lo) as [Hc1 _]; [lra|].
  destruct (sin_taylor hi) as [Hs2 _]; [lra|].
  destruct (cos_taylor hi) as [_ Hc2]; [lra|].
  assert (0 < cos lo) as Hcl by (apply cos_gt_0; lra).
  assert (0 < cos hi) as Hch by (apply cos_gt_0; lra).
  split.
  - rewrite <- (atan_tan lo) by lra. apply atan_increasing.
    unfold tan. apply (Rmult_lt_reg_r (cos lo)); [done|].
    replace (sin lo / cos lo * cos lo) with (sin lo) by (field; lra). nra.
  - rewrite <- (atan_tan hi) by lra. apply atan_increasing.
    unfold tan. apply (Rmult_lt_reg_r (cos hi)); [done|].
    replace (sin hi / cos hi * cos hi) with (sin hi) by (field; lra). nra.
Qed.

(** The real values of the binary64 numbers in the goal, as fractions. *)
Ltac float_values :=
  unfold correctly_rounded, float_value, half_ulp;
  repeat match goal with
  | |- context [Prim2SF ?f] =>
      let v := eval vm_compute in (Prim2SF f) in change (Prim2SF f) with v
  end;
  cbv beta iota delta [SF2R];
  repeat match goal with
  | |- context [(?a <=? ?b)%Z] =>
      let v := eval vm_compute in (a <=? b)%Z in change (a <=? b)%Z with v
  end;
  cbv beta iota;
  repeat match goal with
  | |- context [IZR ?z] =>
      let v := eval vm_compute in z in
      tryif constr_eq z v then fail else change (IZR z) with (IZR v)
  end.

(** One sample against the enclosure of its function. *)
Ltac enclose_sin :=
  match goal with
  | |- context [sin (IZR (Z.neg ?m) / ?d)] =>
      replace (IZR (Z.neg m) / d) with (- (IZR (Z.pos m) / d)) by lra;
      rewrite sin_neg
  | _ => idtac
  end;
  match goal with
  | |- context [sin ?x] =>
      let Hlo := fresh in let Hhi := fresh in
      destruct (sin_taylor x) as [Hlo Hhi]; [lra|];
      unfold sin_upper, sin_lower in Hlo, Hhi; apply Rabs_le; lra
  end.

Ltac enclose_cos :=
  match goal with
  | |- context [cos ?x] =>
      let Hlo := fresh in let Hhi := fresh in
      destruct (cos_taylor x) as [Hlo Hhi]; [lra|];
      unfold cos_upper, cos_lower in Hlo, Hhi; apply Rabs_le; lra
  end.

Ltac enclose_atan :=
  match goal with
  | |- 0 < _ ∧ Rabs (atan ?q - ?v) <= ?h =>
      split; [lra|];
      let H := fresh in
      destruct (atan_between q (v - h) (v + h)) as [? ?];
        [lra|lra|lra|lra|unfold sin_upper, sin_lower, cos_lower; lra
        |unfold sin_lower, cos_upper, cos_lower; lra|];
      apply Rabs_le; lra
  end.

(** Every value of the sample is a binary64 number nearest to the exact
    value of the function at the sampled argument: it lies within half a
    unit in the last place of [sin], [cos] or [atan (y / x)] there. *)
Lemma libm_sample_correctly_rounded :
  Forall (λ '(arg, value), correctly_rounded (sin (float_value arg)) value)
         sin_sample ∧
  Forall (λ '(arg, value), correctly_rounded (cos (float_value arg)) value)
         cos_sample ∧
  Forall (λ '(y, x, value),
            0 < float_value x ∧
            correctly_rounded (atan (float_value y / float_value x)) value)
         atan2_sample.
Proof.
  split_and!.
  - repeat apply Forall_cons_2; try apply Forall_nil_2; float_values.
    + rewrite sin_0, Rminus_diag, Rabs_R0. lra.
    + rewrite sin_0, Rminus_diag, Rabs_R0. lra.
    + enclose_sin.
    + enclose_sin.
    + enclose_sin.
    + enclose_sin.
  - repeat apply Forall_cons_2; try apply Forall_nil_2; float_values.
    + enclose_cos.
    + enclose_cos.
  - repeat apply Forall_cons_2; try apply Forall_nil_2; float_values.
    + split; [lra|].
      match goal with
      | |- context [atan ?q] => replace q with 0 by (unfold Rdiv; ring)
      end.
      rewrite atan_0, Rminus_diag, Rabs_R0. lra.
    + enclose_atan.
    + enclose_atan.
    + enclose_atan.
Qed.

End Sample.

(** ** Haversine distance *)

Section Haversine.
Local Open Scope float_scope.







End Haversine.

(** ** Geo projector *)

Lemma latlon_to_screen_clamped lat lon w h :
  2 ≤ w → 7 ≤ h →
  0 ≤ (latlon_to_screen lat lon w h).1 < w ÷ 2 ∧
  6 ≤ (latlon_to_screen lat lon w h).2 < h.
Proof.
  intros Hw Hh. unfold latlon_to_screen. cbv zeta.
  generalize (double_to_int
    ((lon - LSZH_LON) * 60.0 * cos (LSZH_LAT * M_PI / 180.0) * IZR (w ÷ 4) / RANGE_NM)).
  generalize (double_to_int ((lat - LSZH_LAT) * 60.0 * IZR (h ÷ 2) / RANGE_NM)).
  intros ty tx. simpl.
  assert (1 ≤ w ÷ 2) by (apply Z.quot_le_lower_bound; lia).
  repeat case_decide; lia.
Qed.

Lemma latlon_to_screen_reference w h :
  2 ≤ w → 12 ≤ h → latlon_to_screen LSZH_LAT LSZH_LON w h = (w ÷ 4, h ÷ 2).
Proof.
  intros Hw Hh. unfold latlon_to_screen. cbv zeta.
  replace ((LSZH_LON - LSZH_LON) * 60.0 * cos (LSZH_LAT * M_PI / 180.0)
           * IZR (w ÷ 4) / RANGE_NM)%R with (IZR 0)
    by (unfold RANGE_NM; lra).
  replace ((LSZH_LAT - LSZH_LAT) * 60.0 * IZR (h ÷ 2) / RANGE_NM)%R with (IZR 0)
    by (unfold RANGE_NM; lra).
  rewrite double_to_int_IZR.
  assert (0 ≤ w ÷ 4) by (apply Z.quot_pos; lia).
  assert (w ÷ 4 < w ÷ 2).
  { rewrite !Z.quot_div_nonneg by lia. 
    apply Z.div_lt_upper_bound; [lia|].
    pose proof (Z.mul_div_le w 2). pose proof (Z.mod_pos_bound w 2).
    pose proof (Z.div_mod w 2). lia. }
  assert (6 ≤ h ÷ 2) by (apply Z.quot_le_lower_bound; lia).
  assert (h ÷ 2 < h) by (apply Z.quot_lt; lia).
  repeat case_decide; f_equal; lia.
Qed.

(** C5: on a canvas of [h ≥ 12] rows and [w ≥ 2] columns (the program's is
    120 by 240) every latitude and longitude projects into columns
    [0 .. w/2 - 1] and rows [6 .. h - 1], and the reference point projects
    exactly to [(w/4, h/2)], the cell of the centre marker. *)
Theorem latlon_to_screen_range_and_centre w h :
  2 ≤ w → 12 ≤ h →
  (∀ lat lon,
     0 ≤ (latlon_to_screen lat lon w h).1 < w ÷ 2 ∧
     6 ≤ (latlon_to_screen lat lon w h).2 < h) ∧
  latlon_to_screen LSZH_LAT LSZH_LON w h = (w ÷ 4, h ÷ 2).
Proof.
  intros Hw Hh. split.
  - intros lat lon. apply latlon_to_screen_clamped; lia.
  - by apply latlon_to_screen_reference.
Qed.

Lemma latlon_to_screen_range_and_centre_witness :
  2 ≤ 240 ∧ 12 ≤ 120 ∧
  (∀ lat lon,
     0 ≤ (latlon_to_screen lat lon 240 120).1 < 240 ÷ 2 ∧
     6 ≤ (latlon_to_screen lat lon 240 120).2 < 120) ∧
  latlon_to_screen LSZH_LAT LSZH_LON 240 120 = (240 ÷ 4, 120 ÷ 2).
Proof.
  split; [lia|]. split; [lia|].
  apply (latlon_to_screen_range_and_centre 240 120); lia.
Defined.

(** ** The sweep radius *)

Lemma sqrt_IZR_bounds m :
  0 ≤ m → (IZR (Z.sqrt m) <= sqrt (IZR m) < IZR (Z.sqrt m) + 1)%R.
Proof.
  intros Hm. pose proof (Z.sqrt_spec m Hm) as [Hlo Hhi].
  pose proof (Z.sqrt_nonneg m) as Hs.
  assert (0 <= IZR (Z.sqrt m))%R as Hs' by (by apply IZR_le).
  split.
  - rewrite <- (sqrt_square (IZR (Z.sqrt m))) at 1 by done.
    apply sqrt_le_1_alt. rewrite <- mult_IZR. by apply IZR_le.
  - rewrite <- (sqrt_square (IZR (Z.sqrt m) + 1)) by lra.
    apply sqrt_lt_1_alt. split; [by apply IZR_le|].
    rewrite <- plus_IZR, <- mult_IZR. apply IZR_lt. lia.
Qed.

Lemma double_to_int_sqrt m : 0 ≤ m → double_to_int (sqrt (IZR m)) = Z.sqrt m.
Proof.
  intros Hm. apply double_to_int_nonneg; [by apply sqrt_IZR_bounds|].
  apply Z.sqrt_nonneg.
Qed.

Lemma Zceil_sqrt m :
  0 ≤ m →
  Zceil (sqrt (IZR m)) =
    if decide (Z.sqrt m * Z.sqrt m = m) then Z.sqrt m else Z.sqrt m + 1.
Proof.
  intros Hm. pose proof (sqrt_IZR_bounds m Hm) as [Hlo Hhi].
  pose proof (Z.sqrt_nonneg m) as Hs.
  case_decide as Hsq.
  - apply Zceil_eq. split; [lra|].
    rewrite <- Hsq at 1. rewrite mult_IZR, sqrt_square; [lra|by apply IZR_le].
  - apply Zceil_eq. rewrite plus_IZR. split; [|lra].
    assert (IZR (Z.sqrt m) < sqrt (IZR m))%R; [|lra].
    destruct Hlo as [Hlt|Heq]; [done|]. exfalso. apply Hsq.
    apply eq_IZR. rewrite mult_IZR, Heq. apply sqrt_sqrt. by apply IZR_le.
Qed.

Lemma max_radius_floor cx cy :
  0 ≤ cx → 0 ≤ cy → cx * cx + cy * cy < CInt.INT_MAX →
  max_radius cx cy = Z.sqrt (cx * cx + cy * cy) + 1.
Proof.
  intros Hx Hy Hsum. unfold max_radius, CInt.add, CInt.mul.
  assert (0 ≤ cx * cx) by nia. assert (0 ≤ cy * cy) by nia.
  assert (∀ z, 0 ≤ z ≤ CInt.INT_MAX → CInt.wrap z = z) as Hwrap.
  { intros z Hz. apply CIntFacts.wrap_small. unfold CInt.in_range, CInt.INT_MIN. lia. }
  rewrite (Hwrap (cx * cx)), (Hwrap (cy * cy)) by lia.
  rewrite (Hwrap (cx * cx + cy * cy)) by lia.
  rewrite double_to_int_sqrt by lia.
  apply Hwrap. split; [pose proof (Z.sqrt_nonneg (cx * cx + cy * cy)); lia|].
  assert (Z.sqrt (cx * cx + cy * cy) ≤ cx * cx + cy * cy); [|lia].
  apply Z.sqrt_le_lin. lia.
Qed.

(** The claim as the specification words it fails on the configured
    canvas: the code takes 135, the specification's formula gives 136. *)
Lemma max_radius_not_ceil_plus_one :
  let m := create_square_matrix 120 in
  max_radius (width m ÷ 2) (height m ÷ 2)
    ≠ spec_max_radius (width m ÷ 2) (height m ÷ 2).
Proof.
  change (max_radius 120 60 ≠ spec_max_radius 120 60).
  rewrite max_radius_floor by (unfold CInt.INT_MAX; lia).
  unfold spec_max_radius. rewrite Zceil_sqrt by lia.
  vm_compute. discriminate.
Qed.

(** C2 (amended): for a canvas of size [n] the sweep's centre is
    [(n, n / 2)] and its maximum radius is the integer part of
    [sqrt(centerX² + centerY²)] plus one; this is the specification's
    [ceil(sqrt(...)) + 1] only when the sum is a perfect square and one
    less otherwise, 135 on the configured canvas. *)
Theorem max_radius_is_floor_sqrt_plus_one n :
  0 ≤ n ≤ 41448 →
  let m := create_square_matrix n in
  let center_x := width m ÷ 2 in
  let center_y := height m ÷ 2 in
  let sum := center_x * center_x + center_y * center_y in
  center_x = n ∧ center_y = n ÷ 2 ∧
  max_radius center_x center_y = Z.sqrt sum + 1 ∧
  max_radius center_x center_y =
    (if decide (Z.sqrt sum * Z.sqrt sum = sum)
     then spec_max_radius center_x center_y
     else spec_max_radius center_x center_y - 1) ∧
  (n = 120 → max_radius center_x center_y = 135).
Proof.
  intros Hn. simpl. unfold CInt.mul.
  rewrite CIntFacts.wrap_small
    by (unfold CInt.in_range, CInt.INT_MIN, CInt.INT_MAX; lia).
  rewrite Z.quot_mul by lia.
  assert (0 ≤ n ÷ 2 ≤ 20724).
  { split; [apply Z.quot_pos; lia|]. apply Z.quot_le_upper_bound; lia. }
  assert (n * n + n ÷ 2 * (n ÷ 2) < CInt.INT_MAX)
    by (unfold CInt.INT_MAX; nia).
  assert (0 ≤ n * n + n ÷ 2 * (n ÷ 2)) by nia.
  split; [done|]. split; [done|].
  rewrite max_radius_floor by lia.
  split; [done|]. split.
  - unfold spec_max_radius. rewrite Zceil_sqrt by done.
    repeat case_decide; lia.
  - intros ->. reflexivity.
Qed.

Lemma max_radius_is_floor_sqrt_plus_one_witness :
  0 ≤ 120 ≤ 41448 ∧
  let m := create_square_matrix 120 in
  let center_x := width m ÷ 2 in
  let center_y := height m ÷ 2 in
  let sum := center_x * center_x + center_y * center_y in
  center_x = 120 ∧ center_y = 120 ÷ 2 ∧
  max_radius center_x center_y = Z.sqrt sum + 1 ∧
  max_radius center_x center_y =
    (if decide (Z.sqrt sum * Z.sqrt sum = sum)
     then spec_max_radius center_x center_y
     else spec_max_radius center_x center_y - 1) ∧
  (120 = 120 → max_radius center_x center_y = 135).
Proof.
  split; [lia | apply (max_radius_is_floor_sqrt_plus_one 120); lia].
Defined.

(** ** Canvas writers *)

Lemma store_data_spec m row col ch :
  matrix_wf m → in_grid (height m) (width m) row col →
  ∃ m', store_data m row col ch = Some m' ∧
    matrix_wf m' ∧ same_dims m' m ∧ weather m' = weather m ∧
    ∀ r c, load (data m') r c =
             if decide (r = row ∧ c = col) then Some ch else load (data m) r c.
Proof.
  intros Hwf Hin.
  destruct (store_in_grid (data m) _ _ row col ch (proj1 Hwf) Hin) as [d Hd].
  assert (store_data m row col ch = Some (with_data m d)) as Hst
    by (unfold store_data; by rewrite Hd).
  exists (with_data m d). split; [done|].
  destruct (store_data_wf _ _ _ _ _ Hwf Hst) as (? & ? & ?).
  split_and!; try done. intros r c. by apply load_store.
Qed.

Lemma store_weather_spec m row col i :
  matrix_wf m → in_grid (height m) (width m) row col →
  ∃ m', store_weather m row col i = Some m' ∧
    matrix_wf m' ∧ same_dims m' m ∧ data m' = data m ∧
    ∀ r c, load (weather m') r c =
             if decide (r = row ∧ c = col) then Some i else load (weather m) r c.
Proof.
  intros Hwf Hin.
  destruct (store_in_grid (weather m) _ _ row col i (proj1 (proj2 Hwf)) Hin) as [d Hd].
  assert (store_weather m row col i = Some (with_weather m d)) as Hst
    by (unfold store_weather; by rewrite Hd).
  exists (with_weather m d). split; [done|].
  destruct (store_weather_wf _ _ _ _ _ Hwf Hst) as (? & ? & ?).
  split_and!; try done. intros r c. by apply load_store.
Qed.

Lemma store_data_outside m row col ch :
  matrix_wf m → ¬ in_grid (height m) (width m) row col →
  store_data m row col ch = None.
Proof.
  intros [Hd _] Hout. unfold store_data.
  by rewrite (store_outside _ _ _ _ _ ch Hd Hout).
Qed.

Lemma display_symbol_spec m x y :
  matrix_wf m →
  ∃ m', display_symbol m x y = Some m' ∧
    matrix_wf m' ∧ same_dims m' m ∧ weather m' = weather m ∧
    ∀ r c, load (data m') r c =
             if decide (in_grid (height m) (width m) y (CInt.mul x 2) ∧
                        r = y ∧ c = CInt.mul x 2)
             then Some "X"%char else load (data m) r c.
Proof.
  intros Hwf. unfold display_symbol. cbv zeta. case_decide as Hguard.
  - destruct (store_data_spec m y (CInt.mul x 2) "X"%char Hwf)
      as (m' & Hst & ? & ? & ? & Hload); [unfold in_grid; lia|].
    exists m'. split_and!; try done; try apply H0.
    intros r c. rewrite Hload. unfold in_grid.
    repeat case_decide; try done; lia.
  - exists m. split_and!; try done; try apply Hwf.
    intros r c. rewrite decide_False; [done|]. unfold in_grid. lia.
Qed.

Lemma display_slash_spec m x y :
  matrix_wf m →
  ∃ m', display_slash m x y = Some m' ∧
    matrix_wf m' ∧ same_dims m' m ∧ weather m' = weather m ∧
    ∀ r c, load (data m') r c =
             if decide (in_grid (height m) (width m) (CInt.sub y 1)
                                (CInt.mul (CInt.add x 1) 2) ∧
                        r = CInt.sub y 1 ∧ c = CInt.mul (CInt.add x 1) 2)
             then Some "/"%char else load (data m) r c.
Proof.
  intros Hwf. unfold display_slash. cbv zeta. case_decide as Hguard.
  - destruct (store_data_spec m (CInt.sub y 1) (CInt.mul (CInt.add x 1) 2)
                "/"%char Hwf)
      as (m' & Hst & ? & ? & ? & Hload); [unfold in_grid; lia|].
    exists m'. split_and!; try done; try apply H0.
    intros r c. rewrite Hload. unfold in_grid.
    repeat case_decide; try done; lia.
  - exists m. split_and!; try done; try apply Hwf.
    intros r c. rewrite decide_False; [done|]. unfold in_grid. lia.
Qed.

(** The text loop on a row of the grid, started at a column that is not
    negative: it never leaves the grid and writes the characters that fit
    before the right edge. *)
Lemma text_loop_spec row tab_offset buffer i m :
  matrix_wf m → 0 ≤ row < height m → 0 ≤ tab_offset + i →
  ∃ m', text_loop row tab_offset buffer i m = Some m' ∧
    matrix_wf m' ∧ same_dims m' m ∧ weather m' = weather m ∧
    ∀ r c, load (data m') r c =
      if decide (r = row ∧
                 tab_offset + i ≤ c < tab_offset + i + Z.of_nat (length buffer) ∧
                 c < width m)
      then buffer !! Z.to_nat (c - (tab_offset + i))
      else load (data m) r c.
Proof.
  intros Hwf Hrow. revert i m Hwf Hrow.
  induction buffer as [|ch rest IH]; intros i m Hwf Hrow Hcol; simpl.
  - exists m. split_and!; try done; try apply Hwf.
    intros r c. rewrite decide_False; [done|lia].
  - case_decide as Hfit.
    + destruct (store_data_spec m row (tab_offset + i) ch Hwf)
        as (m1 & Hst & Hwf1 & [Hh1 Hw1] & Hwe1 & Hload1); [unfold in_grid; lia|].
      rewrite Hst. simpl.
      destruct (IH (i + 1) m1 Hwf1) as (m' & Hrun & Hwf' & [Hh' Hw'] & Hwe' & Hload');
        [lia|lia|].
      exists m'. split; [done|]. split; [done|].
      split; [split; congruence|]. split; [congruence|].
      intros r c. rewrite Hload', Hload1, Hw1.
      destruct (decide (r = row ∧ c = tab_offset + i)) as [[-> ->]|Hne].
      * rewrite decide_False by lia. rewrite decide_True by lia.
        by rewrite Z.sub_diag.
      * destruct (decide (r = row ∧
            tab_offset + (i + 1) ≤ c < tab_offset + (i + 1) + Z.of_nat (length rest) ∧
            c < width m)) as [Hin|Hout].
        -- rewrite decide_True by lia.
           replace (Z.to_nat (c - (tab_offset + i)))
             with (S (Z.to_nat (c - (tab_offset + (i + 1))))) by lia.
           done.
        -- rewrite decide_False by lia. done.
    + exists m. split_and!; try done; try apply Hwf.
      intros r c. rewrite decide_False; [done|lia].
Qed.

(** Started left of the grid, the loop stores its first character outside
    the row. *)
Lemma text_loop_negative_column row tab_offset ch rest m :
  matrix_wf m → tab_offset < 0 →
  text_loop row tab_offset (ch :: rest) 0 m = None.
Proof.
  intros Hwf Hneg. simpl.
  pose proof (proj1 Hwf) as (_ & Hw & _).
  rewrite decide_True by lia.
  rewrite store_data_outside; [done|done|]. unfold in_grid. lia.
Qed.

(** Entered on a row below the grid, the loop stores outside the grid. *)
Lemma text_loop_row_below row tab_offset ch rest m :
  matrix_wf m → height m ≤ row → tab_offset < width m →
  text_loop row tab_offset (ch :: rest) 0 m = None.
Proof.
  intros Hwf Hrow Hfit. simpl.
  rewrite decide_True by lia.
  rewrite store_data_outside; [done|done|]. unfold in_grid. lia.
Qed.

Section DisplayInfo.

Variable format_f1 : double → string.

(** Inside the grid and right of column 0 the label block is written row
    by row; every other cell keeps its content. *)
Lemma display_info_spec m x y cs alt spd d :
  matrix_wf m →
  let text_y := CInt.sub y 5 in
  let col := CInt.mul (CInt.add x 1) 2 in
  let line_at k := label_lines format_f1 cs alt spd d !!! Z.to_nat k in
  0 ≤ text_y → text_y + 3 < height m → 0 ≤ col →
  ∃ m', display_info format_f1 m x y cs alt spd d = Some m' ∧
    matrix_wf m' ∧ same_dims m' m ∧ weather m' = weather m ∧
    ∀ r c, load (data m') r c =
      if decide (text_y ≤ r < text_y + 4 ∧ col ≤ c < width m ∧
                 c - col < Z.of_nat (length (line_at (r - text_y))))
      then line_at (r - text_y) !! Z.to_nat (c - col)
      else load (data m) r c.
Proof.
  intros Hwf text_y col line_at Hy0 Hy3 Hcol.
  unfold display_info. fold text_y col. cbv zeta.
  rewrite decide_True by lia.
  destruct (text_loop_spec text_y col (snprintf 100 (format_s8 cs)) 0 m Hwf)
    as (m1 & -> & Hwf1 & [Hh1 Hw1] & Hwe1 & Hl1); [lia|lia|]. cbn [mbind option_bind].
  destruct (text_loop_spec (text_y + 1) col
              (snprintf 100 ("Alt:" ++ format_d alt ++ "ft")) 0 m1 Hwf1)
    as (m2 & -> & Hwf2 & [Hh2 Hw2] & Hwe2 & Hl2); [lia|lia|]. cbn [mbind option_bind].
  destruct (text_loop_spec (text_y + 2) col
              (snprintf 100 ("Spd:" ++ format_d spd ++ "kt")) 0 m2 Hwf2)
    as (m3 & -> & Hwf3 & [Hh3 Hw3] & Hwe3 & Hl3); [lia|lia|]. cbn [mbind option_bind].
  destruct (text_loop_spec (text_y + 3) col
              (snprintf 100 ("Dst:" ++ format_f1 d ++ "nm")) 0 m3 Hwf3)
    as (m4 & -> & Hwf4 & [Hh4 Hw4] & Hwe4 & Hl4); [lia|lia|].
  exists m4. split; [done|]. split; [done|].
  split; [split; congruence|]. split; [congruence|].
  intros r c. rewrite Hl4, Hl3, Hl2, Hl1, Hw3, Hw2, Hw1. rewrite !Z.add_0_r.
  destruct (decide (r = text_y + 3)) as [->|?];
    [|destruct (decide (r = text_y + 2)) as [->|?];
      [|destruct (decide (r = text_y + 1)) as [->|?];
        [|destruct (decide (r = text_y)) as [->|?]]]].
  - subst line_at. simpl. replace (text_y + 3 - text_y) with 3 by lia.
    simpl. repeat case_decide; (done || lia).
  - subst line_at. simpl. replace (text_y + 2 - text_y) with 2 by lia.
    simpl. repeat case_decide; (done || lia).
  - subst line_at. simpl. replace (text_y + 1 - text_y) with 1 by lia.
    simpl. repeat case_decide; (done || lia).
  - subst line_at. simpl. replace (text_y - text_y) with 0 by lia.
    simpl. repeat case_decide; (done || lia).
  - repeat case_decide; (done || lia).
Qed.

(** Above or below the grid the whole block is skipped. *)
Lemma display_info_skipped m x y cs alt spd d :
  CInt.sub y 5 < 0 ∨ height m ≤ CInt.sub y 5 →
  display_info format_f1 m x y cs alt spd d = Some m.
Proof. intros Hout. unfold display_info. cbv zeta. rewrite decide_False; [done|lia]. Qed.

End DisplayInfo.

Lemma in_range_small z : 0 ≤ z ≤ CInt.INT_MAX → CInt.in_range z.
Proof. unfold CInt.in_range, CInt.INT_MIN. lia. Qed.

Lemma canvas_120_wf : matrix_wf (create_square_matrix 120).
Proof. apply create_square_matrix_wf; [unfold CInt.INT_MAX; lia | by vm_compute]. Qed.

(** A text loop either runs into a store outside the grid or leaves a
    well-formed canvas of the same size. *)
Lemma text_loop_wf row tab_offset buffer i m m' :
  matrix_wf m → text_loop row tab_offset buffer i m = Some m' →
  matrix_wf m' ∧ same_dims m' m.
Proof.
  revert i m. induction buffer as [|ch rest IH]; intros i m Hwf Hrun; simpl in Hrun.
  - by simplify_eq.
  - case_decide; [|by simplify_eq].
    destruct (store_data m row (tab_offset + i) ch) as [m1|] eqn:Hst; [|done].
    destruct (store_data_wf _ _ _ _ _ Hwf Hst) as (Hwf1 & [Hh1 Hw1] & _).
    destruct (IH _ _ Hwf1 Hrun) as (? & [? ?]).
    split; [done|]. split; congruence.
Qed.

(** C6 (amended): with [text_y = y - 5] and [col = 2(x + 1)], the label
    block is skipped altogether when [text_y] is above the first or below
    the last row of the canvas; when its rows [text_y .. text_y + 3] lie on
    the canvas and [col] is not negative, each of the four rows holds its
    text from column [col] on, cut where the row ends, and nothing else
    changes. *)
Theorem display_info_label_block (format_f1 : double → string) m x y cs alt spd d :
  matrix_wf m → CInt.in_range (y - 5) →
  let text_y := y - 5 in
  let col := 2 * (x + 1) in
  let line_at k := label_lines format_f1 cs alt spd d !!! Z.to_nat k in
  (text_y < 0 ∨ height m ≤ text_y →
     display_info format_f1 m x y cs alt spd d = Some m) ∧
  (0 ≤ text_y → text_y + 3 < height m → 0 ≤ col ≤ CInt.INT_MAX →
     ∃ m', display_info format_f1 m x y cs alt spd d = Some m' ∧
       same_dims m' m ∧ weather m' = weather m ∧
       ∀ r c, load (data m') r c =
         if decide (text_y ≤ r < text_y + 4 ∧ col ≤ c < width m ∧
                    c - col < Z.of_nat (length (line_at (r - text_y))))
         then line_at (r - text_y) !! Z.to_nat (c - col)
         else load (data m) r c).
Proof.
  intros Hwf Hy text_y col line_at.
  assert (CInt.sub y 5 = text_y) as Hty by (by apply CIntFacts.wrap_small).
  split.
  - intros Hout. apply display_info_skipped. by rewrite Hty.
  - intros Hy0 Hy3 Hcol.
    assert (CInt.mul (CInt.add x 1) 2 = col) as Hc.
    { unfold CInt.mul, CInt.add.
      rewrite (CIntFacts.wrap_small (x + 1)) by (apply in_range_small; lia).
      rewrite Z.mul_comm. apply CIntFacts.wrap_small, in_range_small. lia. }
    destruct (display_info_spec format_f1 m x y cs alt spd d Hwf)
      as (m' & Hrun & _ & Hdims & Hwe & Hload); [lia..|].
    exists m'. split_and!; try done; try apply Hdims.
    intros r c. rewrite Hload, Hty, Hc. done.
Qed.

Lemma display_info_label_block_witness :
  let m := create_square_matrix 120 in
  let fmt := λ _ : double, "12.3"%string in
  let line_at k := label_lines fmt "SWR123" 35000 450 12.3%R !!! Z.to_nat k in
  matrix_wf m ∧ CInt.in_range (50 - 5) ∧
  (50 - 5 < 0 ∨ height m ≤ 50 - 5 →
     display_info fmt m 10 50 "SWR123" 35000 450 12.3%R = Some m) ∧
  ∃ m', display_info fmt m 10 50 "SWR123" 35000 450 12.3%R = Some m' ∧
    same_dims m' m ∧ weather m' = weather m ∧
    ∀ r c, load (data m') r c =
      if decide (50 - 5 ≤ r < 50 - 5 + 4 ∧ 2 * (10 + 1) ≤ c < width m ∧
                 c - 2 * (10 + 1) < Z.of_nat (length (line_at (r - (50 - 5)))))
      then line_at (r - (50 - 5)) !! Z.to_nat (c - 2 * (10 + 1))
      else load (data m) r c.
Proof.
  intros m fmt line_at.
  assert (CInt.in_range (50 - 5)) as Hy by (apply in_range_small; by vm_compute).
  split; [apply canvas_120_wf|]. split; [done|].
  destruct (display_info_label_block fmt m 10 50 "SWR123" 35000 450 12.3%R
              canvas_120_wf Hy) as [Hskip Hblock].
  split; [done|]. apply Hblock; by vm_compute.
Defined.

(** The claim as the specification words it fails below the canvas: at
    anchor row 125 on the 120-row canvas [y - 5] is not negative, yet no
    row is written. *)
Lemma display_info_skips_below_canvas :
  let m := create_square_matrix 120 in
  let fmt := λ _ : double, "12.3"%string in
  ¬ (125 - 5 < 0) ∧
  display_info fmt m 10 125 "SWR123" 35000 450 12.3%R = Some m ∧
  ¬ (∃ m', display_info fmt m 10 125 "SWR123" 35000 450 12.3%R = Some m' ∧
           load (data m') (125 - 5) (2 * (10 + 1)) = Some "S"%char).
Proof.
  intros m fmt.
  assert (display_info fmt m 10 125 "SWR123" 35000 450 12.3%R = Some m) as Hrun
    by (apply display_info_skipped; right; by vm_compute).
  split; [lia|]. split; [done|].
  intros (m' & Hrun' & Hload). rewrite Hrun in Hrun'.
  injection Hrun' as <-.
  rewrite (load_outside _ _ _ _ _ (proj1 canvas_120_wf)) in Hload; [done|].
  unfold in_grid. simpl. lia.
Qed.

Lemma alt_line_head s :
  ∃ rest, snprintf 100 ("Alt:" ++ s) = "A"%char :: rest.
Proof. eexists. reflexivity. Qed.

Lemma dst_line_head s :
  ∃ rest, snprintf 100 ("Dst:" ++ s) = "D"%char :: rest.
Proof. eexists. reflexivity. Qed.

(** C9: [display_symbol] and [display_slash] check all four bounds and
    never store outside the grid.  [display_info] checks only the first
    text row and the right edge: when the first row is on the canvas and
    either the text column [2(x + 1)] is negative or the fourth row falls
    below the last row, it stores outside the grid. *)
Theorem display_info_leaves_grid (format_f1 : double → string) m x y cs alt spd d :
  matrix_wf m →
  let text_y := CInt.sub y 5 in
  let col := CInt.mul (CInt.add x 1) 2 in
  0 ≤ text_y < height m →
  col < 0 ∨ (height m ≤ text_y + 3 ∧ col < width m) →
  is_Some (display_symbol m x y) ∧
  is_Some (display_slash m x y) ∧
  display_info format_f1 m x y cs alt spd d = None.
Proof.
  intros Hwf text_y col Hty Hbad.
  split; [|split].
  - destruct (display_symbol_spec m x y Hwf) as (m' & -> & _). by eexists.
  - destruct (display_slash_spec m x y Hwf) as (m' & -> & _). by eexists.
  - unfold display_info. fold text_y col. cbv zeta.
    rewrite decide_True by lia.
    destruct (text_loop text_y col _ 0 m) as [m1|] eqn:H1; [|done].
    destruct (text_loop_wf _ _ _ _ _ _ Hwf H1) as (Hwf1 & [Hh1 Hw1]).
    cbn [mbind option_bind].
    destruct (alt_line_head (format_d alt ++ "ft")) as [rest2 ->].
    destruct (dst_line_head (format_f1 d ++ "nm")) as [rest4 ->].
    destruct Hbad as [Hneg|[Hrow Hfit]].
    { by rewrite text_loop_negative_column. }
    destruct (text_loop (text_y + 1) col _ 0 m1) as [m2|] eqn:H2; [|done].
    destruct (text_loop_wf _ _ _ _ _ _ Hwf1 H2) as (Hwf2 & [Hh2 Hw2]).
    cbn [mbind option_bind].
    destruct (text_loop (text_y + 2) col _ 0 m2) as [m3|] eqn:H3; [|done].
    destruct (text_loop_wf _ _ _ _ _ _ Hwf2 H3) as (Hwf3 & [Hh3 Hw3]).
    cbn [mbind option_bind].
    apply text_loop_row_below; [done|lia|lia].
Qed.

Lemma display_info_leaves_grid_witness :
  let m := create_square_matrix 120 in
  let fmt := λ _ : double, "12.3"%string in
  matrix_wf m ∧
  (* left of the canvas: x = -5, y = 10 *)
  (0 ≤ CInt.sub 10 5 < height m ∧
   CInt.mul (CInt.add (-5) 1) 2 < 0 ∧
   is_Some (display_symbol m (-5) 10) ∧
   is_Some (display_slash m (-5) 10) ∧
   display_info fmt m (-5) 10 "SWR123" 35000 450 12.3%R = None) ∧
  (* fourth row below the canvas: x = 0, y = 122 *)
  (0 ≤ CInt.sub 122 5 < height m ∧
   height m ≤ CInt.sub 122 5 + 3 ∧ CInt.mul (CInt.add 0 1) 2 < width m ∧
   display_info fmt m 0 122 "SWR123" 35000 450 12.3%R = None).
Proof.
  intros m fmt.
  assert (0 ≤ CInt.sub 10 5 < height m) as Hty by (by vm_compute).
  assert (CInt.mul (CInt.add (-5) 1) 2 < 0) as Hcol by (by vm_compute).
  assert (0 ≤ CInt.sub 122 5 < height m) as Hty' by (by vm_compute).
  assert (height m ≤ CInt.sub 122 5 + 3 ∧ CInt.mul (CInt.add 0 1) 2 < width m)
    as Hrow by (by vm_compute).
  split; [apply canvas_120_wf|]. split.
  - split; [done|]. split; [done|].
    apply (display_info_leaves_grid fmt m (-5) 10 "SWR123" 35000 450 12.3%R
             canvas_120_wf Hty (or_introl Hcol)).
  - split; [done|]. split; [apply Hrow|]. split; [apply Hrow|].
    apply (display_info_leaves_grid fmt m 0 122 "SWR123" 35000 450 12.3%R
             canvas_120_wf Hty' (or_intror Hrow)).
Defined.

(** ** The display filter *)

Lemma altitude_ft_zero ac : altitude ac = 0%R → altitude_ft ac = 0.
Proof.
  intros H0. unfold altitude_ft. rewrite H0.
  replace (0 * 3.28084)%R with (IZR 0) by lra. apply double_to_int_IZR.
Qed.

(** 548.7 m is 1800 ft and 31.5 m/s is 61 kt after truncation. *)
Lemma conversion_example ac :
  altitude ac = 548.7%R → velocity ac = 31.5%R →
  altitude_ft ac = 1800 ∧ speed_kts ac = 61.
Proof.
  intros Ha Hv. unfold altitude_ft, speed_kts. rewrite Ha, Hv.
  split; (apply double_to_int_nonneg; [lra|lia]).
Qed.

(** C3: the body of the aircraft loop converts the altitude to feet and
    the velocity to knots, both truncated, and draws the record (its marker
    "X" appears at the projected cell of a canvas that did not show one
    there) if and only if [altitude_ft > 1800] and [speed_kts > 60];
    otherwise the canvas is left as it was, in particular at exactly
    1800 ft whatever the speed, and at altitude 0. *)
Theorem draw_aircraft_iff_above_thresholds
    (format_f1 : double → string) tmp ac :
  matrix_wf tmp → 2 ≤ width tmp → 7 ≤ height tmp →
  let p := latlon_to_screen (latitude ac) (longitude ac) (width tmp) (height tmp) in
  load (data tmp) p.2 (2 * p.1) ≠ Some "X"%char →
  altitude_ft ac = double_to_int (altitude ac * 3.28084) ∧
  speed_kts ac = double_to_int (velocity ac * 1.94384) ∧
  ∃ tmp', draw_aircraft format_f1 tmp ac = Some tmp' ∧
    (load (data tmp') p.2 (2 * p.1) = Some "X"%char ↔
       altitude_ft ac > 1800 ∧ speed_kts ac > 60) ∧
    (¬ (altitude_ft ac > 1800 ∧ speed_kts ac > 60) → tmp' = tmp) ∧
    (altitude_ft ac = 1800 → tmp' = tmp) ∧
    (altitude ac = 0%R → tmp' = tmp).
Proof.
  intros Hwf Hw Hh p Hfree. split; [done|]. split; [done|].
  pose proof (latlon_to_screen_clamped (latitude ac) (longitude ac) _ _ Hw Hh)
    as [Hx Hy].
  fold p in Hx, Hy. unfold draw_aircraft. fold p.
  destruct p as [sx sy]. simpl in *. cbv zeta.
  destruct Hwf as (Hd & Hwe & Hhr & Hwr).
  assert (matrix_wf tmp) as Hwf by done.
  assert (2 * (sx + 1) ≤ width tmp).
  { rewrite Z.quot_div_nonneg in Hx by lia.
    pose proof (Z.mul_div_le (width tmp) 2). lia. }
  assert (width tmp ≤ CInt.INT_MAX ∧ height tmp ≤ CInt.INT_MAX) as [? ?]
    by (unfold CInt.in_range in *; lia).
  case_decide as Hfilter.
  - exists tmp. split; [done|]. split_and!; try done.
    split; [by intros ?|lia].
  - assert (CInt.mul sx 2 = 2 * sx) as Hmx.
    { unfold CInt.mul. rewrite Z.mul_comm. apply CIntFacts.wrap_small, in_range_small. lia. }
    assert (CInt.sub sy 1 = sy - 1) as Hs1
      by (apply CIntFacts.wrap_small, in_range_small; lia).
    assert (CInt.sub sy 5 = sy - 5) as Hs5
      by (apply CIntFacts.wrap_small, in_range_small; lia).
    assert (CInt.mul (CInt.add sx 1) 2 = 2 * (sx + 1)) as Hmx1.
    { unfold CInt.mul, CInt.add.
      rewrite (CIntFacts.wrap_small (sx + 1)) by (apply in_range_small; lia).
      rewrite Z.mul_comm. apply CIntFacts.wrap_small, in_range_small. lia. }
    destruct (display_symbol_spec tmp sx sy Hwf)
      as (m1 & -> & Hwf1 & [Hh1 Hw1] & _ & Hl1).
    cbn [mbind option_bind].
    destruct (display_slash_spec m1 sx sy Hwf1)
      as (m2 & -> & Hwf2 & [Hh2 Hw2] & _ & Hl2).
    cbn [mbind option_bind].
    destruct (display_info_spec format_f1 m2 sx sy (callsign ac)
                (altitude_ft ac) (speed_kts ac) (distance ac) Hwf2)
      as (m3 & -> & Hwf3 & _ & _ & Hl3); [lia..|].
    exists m3. split; [done|]. split_and!; try lia.
    + split; [lia|]. intros _.
      rewrite Hl3, decide_False by lia.
      rewrite Hl2, decide_False by lia.
      rewrite Hl1, decide_True; [done|].
      unfold in_grid. lia.
    + intros Hzero. apply altitude_ft_zero in Hzero. lia.
Qed.

Lemma draw_aircraft_iff_above_thresholds_witness :
  let tmp := create_square_matrix 120 in
  let fmt := λ _ : double, "0.0"%string in
  let ac := {| callsign := "SWR123"; latitude := LSZH_LAT; longitude := LSZH_LON;
               altitude := 548.7; velocity := 31.5; squawk := 0;
               distance := 0 |} in
  altitude_ft ac = 1800 ∧ speed_kts ac = 61 ∧
  draw_aircraft fmt tmp ac = Some tmp.
Proof.
  intros tmp fmt ac.
  destruct (conversion_example ac eq_refl eq_refl) as [Hft Hkt].
  split; [done|]. split; [done|].
  assert (load (data tmp) (height tmp ÷ 2) (2 * (width tmp ÷ 4)) ≠ Some "X"%char)
    as Hfree.
  { change (data tmp)
      with (replicate (Z.to_nat 120) (replicate (Z.to_nat 240) blank)).
    rewrite (load_replicate blank 120 240); [done|].
    unfold in_grid. by vm_compute. }
  assert (2 ≤ width tmp) as Hw by (by vm_compute).
  assert (7 ≤ height tmp) as Hh by (by vm_compute).
  pose proof (latlon_to_screen_reference (width tmp) (height tmp)) as Hp.
  destruct (draw_aircraft_iff_above_thresholds fmt tmp ac canvas_120_wf Hw Hh)
    as (_ & _ & tmp' & Hrun & _ & _ & H1800 & _).
  - change (latitude ac) with LSZH_LAT. change (longitude ac) with LSZH_LON.
    rewrite Hp by (by vm_compute). exact Hfree.
  - rewrite Hrun. f_equal. by apply H1800.
Defined.

(** ** Sweep compositor *)

Section Sweep.

Variables (source : Matrix) (center_x center_y : Z) (theta : double).

Local Abbreviation hits := (beam_hits center_x center_y theta).

Lemma sweep_radius_spec radius dest :
  matrix_wf dest → matrix_wf source → same_dims source dest →
  ∃ dest', sweep_radius source center_x center_y theta radius dest = Some dest' ∧
    matrix_wf dest' ∧ same_dims dest' dest ∧
    ∀ x y, cell dest' y x =
      if decide (in_grid (height dest) (width dest) y x ∧ hits radius x y)
      then cell source y x else cell dest y x.
Proof.
  intros Hwf Hwfs [Hhs Hws]. unfold sweep_radius. cbv zeta.
  set (x0 := sweep_x center_x theta radius).
  set (y0 := sweep_y center_y theta radius).
  case_decide as Hguard.
  - assert (in_grid (height dest) (width dest) y0 x0) as Hin
      by (unfold in_grid; lia).
    destruct (load_in_grid (data source) (height dest) (width dest) y0 x0)
      as [c Hc]; [rewrite <- Hhs, <- Hws; apply Hwfs|done|].
    destruct (load_in_grid (weather source) (height dest) (width dest) y0 x0)
      as [i Hi]; [rewrite <- Hhs, <- Hws; apply Hwfs|done|].
    rewrite Hc. cbn [mbind option_bind].
    destruct (store_data_spec dest y0 x0 c Hwf Hin)
      as (d1 & -> & Hwf1 & [Hh1 Hw1] & Hwe1 & Hl1).
    cbn [mbind option_bind]. rewrite Hi. cbn [mbind option_bind].
    destruct (store_weather_spec d1 y0 x0 i Hwf1)
      as (d2 & -> & Hwf2 & [Hh2 Hw2] & Hda2 & Hl2); [by rewrite Hh1, Hw1|].
    exists d2. split; [done|]. split; [done|].
    split; [split; congruence|].
    intros x y. unfold cell, beam_hits. fold x0 y0.
    rewrite Hl2, Hda2, Hl1, Hwe1.
    destruct (decide (y = y0 ∧ x = x0)) as [[-> ->]|Hne].
    + rewrite decide_True by done. by rewrite Hc, Hi.
    + rewrite decide_False; [done|]. intros (_ & ? & ?). by apply Hne.
  - exists dest. split; [done|]. split; [done|]. split; [done|].
    intros x y. rewrite decide_False; [done|].
    unfold beam_hits, in_grid. fold x0 y0. intros (? & ? & ?). lia.
Qed.

(** After the radii [0 .. upto] of one angle step, every cell of the
    canvas under the beam holds the pending cell, every other cell is
    untouched. *)
Lemma sweep_upto_spec upto dest :
  matrix_wf dest → matrix_wf source → same_dims source dest →
  ∃ dest', sweep_upto source center_x center_y theta upto dest = Some dest' ∧
    matrix_wf dest' ∧ same_dims dest' dest ∧
    ∀ x y,
      (in_grid (height dest) (width dest) y x →
       (∃ r, 0 ≤ r ≤ upto ∧ hits r x y) → cell dest' y x = cell source y x) ∧
      ((∀ r, 0 ≤ r ≤ upto → ¬ hits r x y) → cell dest' y x = cell dest y x).
Proof.
  intros Hwf Hwfs Hdims. unfold sweep_upto.
  destruct (for_range_inv
    (sweep_radius source center_x center_y theta)
    (λ done d, matrix_wf d ∧ same_dims d dest ∧
       ∀ x y,
         (in_grid (height dest) (width dest) y x →
          (∃ r, r ∈ done ∧ hits r x y) → cell d y x = cell source y x) ∧
         ((∀ r, r ∈ done → ¬ hits r x y) → cell d y x = cell dest y x))
    0 (upto + 1) dest) as (dest' & Hrun & Hwf' & Hdims' & Hcells).
  - split; [done|]. split; [done|]. intros x y. split.
    + intros _ (r & Hr & _). by apply elem_of_nil in Hr.
    + done.
  - intros done i d _ (Hwfd & [Hhd Hwd] & Hinv).
    destruct (sweep_radius_spec i d Hwfd Hwfs)
      as (d' & Hstep & Hwfd' & [Hh' Hw'] & Hcell);
      [destruct Hdims; split; congruence|].
    exists d'. split; [done|]. split; [done|]. split; [split; congruence|].
    intros x y. rewrite Hcell, Hhd, Hwd. destruct (Hinv x y) as [Hhit Hmiss].
    case_decide as Hi.
    + split; [done|]. intros Hnone. exfalso.
      apply (Hnone i); [|apply Hi]. apply elem_of_app. right. by left.
    + split.
      * intros Hin (r & Hr & Hb). apply Hhit; [done|]. exists r. split; [|done].
        apply elem_of_app in Hr as [Hr|Hr]; [done|].
        apply list_elem_of_singleton in Hr as ->. exfalso. by apply Hi.
      * intros Hnone. apply Hmiss. intros r Hr. apply Hnone.
        apply elem_of_app. by left.
  - exists dest'. split; [done|]. split; [done|]. split; [done|].
    intros x y. destruct (Hcells x y) as [Hhit Hmiss]. split.
    + intros Hin (r & Hr & Hb). apply Hhit; [done|]. exists r. split; [|done].
      apply elem_of_seqZ. lia.
    + intros Hnone. apply Hmiss. intros r Hr. apply Hnone.
      apply elem_of_seqZ in Hr. lia.
Qed.

End Sweep.

Lemma for_each_app {S : Type} (body : Z → S → option S) l1 l2 (s : S) :
  for_each body (l1 ++ l2) s = for_each body l1 s ≫= for_each body l2.
Proof.
  revert s. induction l1 as [|i l1 IH]; intros s; simpl; [done|].
  destruct (body i s) as [s1|]; simpl; [apply IH|done].
Qed.

(** The loop runs its indices in ascending order: it is the loop up to
    [mid] followed by the loop from [mid]. *)
Lemma for_range_split {S : Type} (body : Z → S → option S) lo mid hi (s : S) :
  lo ≤ mid ≤ hi →
  for_range lo hi body s = for_range lo mid body s ≫= for_range mid hi body.
Proof.
  intros Hmid. unfold for_range.
  replace (hi - lo) with ((mid - lo) + (hi - mid)) by lia.
  rewrite seqZ_app by lia. rewrite for_each_app.
  by replace (lo + (mid - lo)) with mid by lia.
Qed.

Lemma sweep_x_centre center_x theta : sweep_x center_x theta 0 = center_x.
Proof.
  unfold sweep_x. replace (0 * cos theta)%R with (IZR 0) by lra.
  rewrite double_to_int_IZR. lia.
Qed.

Lemma sweep_y_centre center_y theta : sweep_y center_y theta 0 = center_y.
Proof.
  unfold sweep_y. replace (0 * sin theta)%R with (IZR 0) by lra.
  rewrite double_to_int_IZR. lia.
Qed.

(** Strictly inside the first quadrant both the cosine and the sine lie
    strictly between 0 and 1. *)
Lemma cos_sin_first_quadrant theta :
  (0 < theta < 1)%R → (0 < cos theta < 1)%R ∧ (0 < sin theta < 1)%R.
Proof.
  intros [H0 H1]. pose proof PI2_1 as Hpi.
  assert (0 < cos theta)%R as Hc by (apply cos_gt_0; lra).
  assert (0 < sin theta)%R as Hs by (apply sin_gt_0; lra).
  pose proof (sin2_cos2 theta) as Hsum. unfold Rsqr in Hsum.
  split; split; try done; nra.
Qed.

Lemma double_to_int_fraction d : (0 <= d < 1)%R → double_to_int d = 0.
Proof. intros Hd. apply double_to_int_nonneg; [simpl; lra|done]. Qed.

(** Radii 0 and 1 of an angle strictly inside the first quadrant land on
    the same cell, the centre: the second write goes where the first went. *)
Lemma sweep_radii_alias center_x center_y theta :
  (0 < theta < 1)%R →
  beam_hits center_x center_y theta 0 center_x center_y ∧
  beam_hits center_x center_y theta 1 center_x center_y.
Proof.
  intros Htheta. destruct (cos_sin_first_quadrant theta Htheta) as [Hc Hs].
  split; split.
  - apply sweep_x_centre.
  - apply sweep_y_centre.
  - unfold sweep_x. rewrite double_to_int_fraction; [lia|lra].
  - unfold sweep_y. rewrite double_to_int_fraction; [lia|lra].
Qed.

(** In the first quadrant the beam stays in the lower right quarter of the
    canvas (rows grow downwards). *)
Lemma sweep_first_quadrant center_x center_y theta r :
  (0 < theta < 1)%R → 0 ≤ r →
  center_x ≤ sweep_x center_x theta r ∧ center_y ≤ sweep_y center_y theta r.
Proof.
  intros Htheta Hr. destruct (cos_sin_first_quadrant theta Htheta) as [Hc Hs].
  apply IZR_le in Hr. unfold sweep_x, sweep_y.
  assert (∀ d, (0 <= d)%R → 0 ≤ double_to_int d) as Hcast.
  { intros d Hd. unfold double_to_int. destruct (Rle_dec 0 d) as [_|Hn]; [|lra].
    by apply Zfloor_lub. }
  split.
  - assert (0 ≤ double_to_int (IZR r * cos theta)); [apply Hcast; nra|lia].
  - assert (0 ≤ double_to_int (IZR r * sin theta)); [apply Hcast; nra|lia].
Qed.

Lemma sweep_theta_90 : (0 < sweep_theta 90 < 1)%R.
Proof. unfold sweep_theta, num_angles, M_PI. change (90 * 2) with 180. split; lra. Qed.

(** C1: in one angle step the radius loop runs from 0 up to the
    maximum radius and copies the pending cell into the visible cell at
    every in-bounds position.  For a cell that radius [r] lands on, the
    loop is the loop up to [r], whose write leaves the pending cell there,
    followed by the larger radii, and at the end of the step the cell
    still equals the pending cell: whichever radius wrote last, the value
    is the pending cell's.  A cell no radius lands on is unchanged. *)
Theorem sweep_step_last_write_wins source angle_step dest :
  matrix_wf dest → matrix_wf source → same_dims source dest →
  let center_x := width dest ÷ 2 in
  let center_y := height dest ÷ 2 in
  let theta := sweep_theta angle_step in
  let top := max_radius center_x center_y in
  ∃ dest', sweep_step source angle_step dest = Some dest' ∧
    ∀ x y,
      (in_grid (height dest) (width dest) y x →
       ∀ r, 0 ≤ r ≤ top → beam_hits center_x center_y theta r x y →
         ∃ after_r,
           sweep_upto source center_x center_y theta r dest = Some after_r ∧
           for_range (r + 1) (top + 1)
             (sweep_radius source center_x center_y theta) after_r = Some dest' ∧
           cell after_r y x = cell source y x ∧
           cell dest' y x = cell source y x) ∧
      ((∀ r, 0 ≤ r ≤ top → ¬ beam_hits center_x center_y theta r x y) →
       cell dest' y x = cell dest y x).
Proof.
  intros Hwf Hwfs Hdims center_x center_y theta top.
  destruct (sweep_upto_spec source center_x center_y theta top dest Hwf Hwfs Hdims)
    as (dest' & Hrun & _ & _ & Hcells).
  exists dest'. split; [done|]. intros x y. destruct (Hcells x y) as [Hhit Hmiss].
  split; [|done]. intros Hin r Hr Hb.
  destruct (sweep_upto_spec source center_x center_y theta r dest Hwf Hwfs Hdims)
    as (after_r & Hprefix & _ & _ & Hcells_r).
  exists after_r. split; [done|]. split_and!.
  - unfold sweep_upto in Hrun, Hprefix.
    rewrite (for_range_split _ 0 (r + 1) (top + 1)) in Hrun by lia.
    by rewrite Hprefix in Hrun.
  - apply Hcells_r; [done|]. exists r. split; [lia|done].
  - apply Hhit; [done|]. by exists r.
Qed.

Lemma sweep_step_last_write_wins_witness :
  let dest := create_square_matrix 120 in
  let theta := sweep_theta 90 in
  ∃ source,
    (m ← display_symbol dest 60 60; m ← store_weather m 60 120 3;
     display_symbol m 5 20) = Some source ∧
    (matrix_wf dest ∧ matrix_wf source ∧ same_dims source dest) ∧
    (width dest ÷ 2 = 120 ∧ height dest ÷ 2 = 60 ∧ max_radius 120 60 = 135) ∧
    in_grid (height dest) (width dest) 60 120 ∧
    (beam_hits 120 60 theta 0 120 60 ∧ beam_hits 120 60 theta 1 120 60) ∧
    (cell source 60 120 = (Some "X"%char, Some 3) ∧
     cell dest 60 120 = (Some " "%char, Some 0)) ∧
    (cell source 20 10 = (Some "X"%char, Some 0) ∧
     cell dest 20 10 = (Some " "%char, Some 0)) ∧
    ∃ dest' after_0 after_1,
      sweep_step source 90 dest = Some dest' ∧
      sweep_upto source 120 60 theta 0 dest = Some after_0 ∧
      for_range 1 136 (sweep_radius source 120 60 theta) after_0 = Some dest' ∧
      sweep_upto source 120 60 theta 1 dest = Some after_1 ∧
      for_range 2 136 (sweep_radius source 120 60 theta) after_1 = Some dest' ∧
      cell after_0 60 120 = (Some "X"%char, Some 3) ∧
      cell after_1 60 120 = (Some "X"%char, Some 3) ∧
      cell dest' 60 120 = (Some "X"%char, Some 3) ∧
      cell dest' 20 10 = (Some " "%char, Some 0).
Proof.
  intros dest theta.
  pose proof canvas_120_wf as Hwf. fold dest in Hwf.
  assert (width dest = 240 ∧ height dest = 120) as [Hw Hh] by (by vm_compute).
  destruct (display_symbol_spec dest 60 60 Hwf)
    as (m1 & Hm1 & Hwf1 & [Hh1 Hw1] & Hwe1 & Hda1).
  destruct (store_weather_spec m1 60 120 3 Hwf1)
    as (m2 & Hm2 & Hwf2 & [Hh2 Hw2] & Hda2 & Hwe2);
    [rewrite Hh1, Hw1, Hh, Hw; unfold in_grid; lia|].
  destruct (display_symbol_spec m2 5 20 Hwf2)
    as (source & Hm3 & Hwfs & [Hh3 Hw3] & Hwe3 & Hda3).
  assert (same_dims source dest) as Hdims by (split; congruence).
  assert (max_radius 120 60 = 135) as Htop.
  { rewrite max_radius_floor by (unfold CInt.INT_MAX; lia). by vm_compute. }
  assert (in_grid (height dest) (width dest) 60 120) as Hin
    by (rewrite Hh, Hw; unfold in_grid; lia).
  destruct (sweep_radii_alias 120 60 theta sweep_theta_90) as [Hhit0 Hhit1].
  assert (cell dest 60 120 = (Some " "%char, Some 0)) as Hd120 by (by vm_compute).
  assert (cell dest 20 10 = (Some " "%char, Some 0)) as Hd10 by (by vm_compute).
  assert (cell source 60 120 = (Some "X"%char, Some 3)) as Hs120.
  { unfold cell. rewrite Hda3, Hwe3, Hwe2, Hda2, Hda1.
    rewrite Hh2, Hw2, Hh1, Hw1, Hh, Hw.
    change (CInt.mul 5 2) with 10. change (CInt.mul 60 2) with 120.
    rewrite decide_False by lia.
    rewrite decide_True by (unfold in_grid; lia).
    by rewrite decide_True by done. }
  assert (cell source 20 10 = (Some "X"%char, Some 0)) as Hs10.
  { unfold cell. rewrite Hda3, Hwe3, Hwe2, Hwe1.
    rewrite Hh2, Hw2, Hh1, Hw1, Hh, Hw.
    change (CInt.mul 5 2) with 10.
    rewrite decide_True by (unfold in_grid; lia).
    rewrite decide_False by lia. by vm_compute. }
  exists source. split.
  { rewrite Hm1. cbn [mbind option_bind]. rewrite Hm2. cbn [mbind option_bind].
    exact Hm3. }
  split; [done|]. split; [by rewrite Hw, Hh|]. split; [done|].
  split; [done|]. split; [done|]. split; [done|].
  destruct (sweep_step_last_write_wins source 90 dest Hwf Hwfs Hdims)
    as (dest' & Hrun & Hcells).
  rewrite Hw, Hh in Hcells.
  change (240 ÷ 2) with 120 in Hcells. change (120 ÷ 2) with 60 in Hcells.
  fold theta in Hcells. rewrite Htop in Hcells.
  destruct (Hcells 120 60) as [Hhit _].
  destruct (Hhit ltac:(unfold in_grid; lia) 0 ltac:(lia) Hhit0)
    as (after_0 & Hpre0 & Hpost0 & Hcell0 & Hfinal).
  destruct (Hhit ltac:(unfold in_grid; lia) 1 ltac:(lia) Hhit1)
    as (after_1 & Hpre1 & Hpost1 & Hcell1 & _).
  destruct (Hcells 10 20) as [_ Hmiss].
  exists dest', after_0, after_1.
  split; [done|]. split; [done|]. split; [done|]. split; [done|].
  split; [done|]. split; [congruence|]. split; [congruence|].
  split; [congruence|].
  rewrite Hmiss; [done|]. intros r Hr [Hx _].
  pose proof (sweep_first_quadrant 120 60 theta r sweep_theta_90 ltac:(lia)).
  lia.
Defined.

(** ** Weather field generator *)

Lemma merge_weather_max current candidate :
  merge_weather current candidate =
    match candidate with Some v => Z.max current v | None => current end.
Proof. unfold merge_weather. destruct candidate; [case_decide|]; lia. Qed.

Lemma faded_intensity_bounds radius intensity distance :
  0 < radius → 0 ≤ intensity → (0 <= distance < IZR radius)%R →
  0 ≤ faded_intensity radius intensity distance ≤ intensity.
Proof.
  intros Hr Hi [Hd0 Hd1]. unfold faded_intensity. cbv zeta.
  apply IZR_lt in Hr. apply IZR_le in Hi.
  assert (0 <= distance / IZR radius < 1)%R as [Hq0 Hq1].
  { assert (distance / IZR radius * IZR radius = distance)%R as Hq
      by (field; lra).
    split.
    - apply Rmult_le_reg_r with (IZR radius); [done|]. rewrite Hq. lra.
    - apply Rmult_lt_reg_r with (IZR radius); [done|]. rewrite Hq. lra. }
  apply double_to_int_bounds. split; nra.
Qed.

Lemma weather_candidate_bounds cell_x cell_y radius intensity x y v :
  0 < radius → 0 ≤ intensity →
  weather_candidate cell_x cell_y radius intensity x y = Some v →
  0 ≤ v ≤ intensity.
Proof.
  intros Hr Hi. unfold weather_candidate. cbv zeta.
  destruct (Rlt_dec _ _) as [Hlt|]; [|done]. intros [= <-].
  apply faded_intensity_bounds; [done..|].
  split; [apply sqrt_pos|done].
Qed.

(** At the centre of a weather cell the fade is exactly 1. *)
Lemma weather_candidate_centre cell_x cell_y radius intensity :
  0 < radius →
  weather_candidate cell_x cell_y radius intensity (2 * cell_x) cell_y
    = Some intensity.
Proof.
  intros Hr. apply IZR_lt in Hr.
  unfold weather_candidate, cell_distance. cbv zeta.
  replace (2 * cell_x - cell_x * 2) with 0 by lia.
  replace (cell_y - cell_y) with 0 by lia.
  change (0 * 0) with 0.
  replace (IZR 0 / 4.0 + IZR 0)%R with 0%R by lra.
  rewrite sqrt_0. destruct (Rlt_dec 0 (IZR radius)) as [_|Hn]; [|done].
  f_equal. unfold faded_intensity.
  replace (0 / IZR radius)%R with 0%R by (unfold Rdiv; ring).
  replace (IZR intensity * (1.0 - 0))%R with (IZR intensity) by lra.
  apply double_to_int_IZR.
Qed.

(** One execution of the loop body at a cell of the grid. *)
Lemma weather_cell_body_spec cell_x cell_y radius intensity y x m :
  matrix_wf m → in_grid (height m) (width m) y x →
  ∃ m', weather_cell_body cell_x cell_y radius intensity y x m = Some m' ∧
    matrix_wf m' ∧ same_dims m' m ∧ data m' = data m ∧
    ∀ r c cur, load (weather m) r c = Some cur →
      load (weather m') r c =
        Some (if decide (r = y ∧ c = x)
              then merge_weather cur
                     (weather_candidate cell_x cell_y radius intensity x y)
              else cur).
Proof.
  intros Hwf Hin. unfold weather_cell_body, weather_candidate. cbv zeta.
  destruct (load_in_grid (weather m) _ _ y x (proj1 (proj2 Hwf)) Hin)
    as [cur0 Hcur0].
  destruct (Rlt_dec _ _) as [Hlt|Hge].
  - rewrite Hcur0. cbn [mbind option_bind]. unfold merge_weather.
    case_decide as Hgt.
    + destruct (store_weather_spec m y x
                  (faded_intensity radius intensity
                     (cell_distance cell_x cell_y x y)) Hwf Hin)
        as (m' & -> & Hwf' & Hdims & Hdata & Hl).
      exists m'. split_and!; try done; try apply Hdims.
      intros r c cur Hcur. rewrite Hl. case_decide as Heq; [|done].
      destruct Heq as [-> ->]. rewrite Hcur0 in Hcur. injection Hcur as <-.
      by rewrite decide_True.
    + exists m. split_and!; try done. intros r c cur Hcur. rewrite Hcur.
      case_decide as Heq; [|done]. destruct Heq as [-> ->].
      rewrite Hcur0 in Hcur. injection Hcur as <-. by rewrite decide_False.
  - exists m. split_and!; try done. intros r c cur Hcur. rewrite Hcur.
    by case_decide.
Qed.

Lemma merge_weather_idem cur cand :
  merge_weather (merge_weather cur cand) cand = merge_weather cur cand.
Proof. rewrite !merge_weather_max. destruct cand; lia. Qed.

Lemma weather_loaded_in_grid m y x cur :
  matrix_wf m → load (weather m) y x = Some cur →
  in_grid (height m) (width m) y x.
Proof.
  intros Hwf Hcur. destruct (decide (in_grid (height m) (width m) y x)); [done|].
  by rewrite (load_outside _ _ _ _ _ (proj1 (proj2 Hwf))) in Hcur.
Qed.

Lemma draw_weather_cell_spec cell_x cell_y radius intensity m :
  matrix_wf m →
  ∃ m', draw_weather_cell cell_x cell_y radius intensity m = Some m' ∧
    matrix_wf m' ∧ same_dims m' m ∧ data m' = data m ∧
    ∀ y x cur, load (weather m) y x = Some cur →
      load (weather m') y x =
        Some (merge_weather cur
                (weather_candidate cell_x cell_y radius intensity x y)).
Proof.
  intros Hwf. unfold draw_weather_cell.
  destruct (for_range_inv
    (λ y m, for_range 0 (width m)
       (λ x m, weather_cell_body cell_x cell_y radius intensity y x m) m)
    (λ done m', matrix_wf m' ∧ same_dims m' m ∧ data m' = data m ∧
       ∀ y x cur, load (weather m) y x = Some cur →
         load (weather m') y x =
           Some (if decide (y ∈ done)
                 then merge_weather cur
                        (weather_candidate cell_x cell_y radius intensity x y)
                 else cur))
    0 (height m) m) as (m' & Hrun & Hwf' & Hdims' & Hdata' & Hcells).
  - split; [done|]. split; [done|]. split; [done|].
    intros y x cur Hcur. rewrite Hcur.
    rewrite decide_False; [done|]. apply not_elem_of_nil.
  - intros rows y m1 Hy (Hwf1 & [Hh1 Hw1] & Hda1 & Hinv1).
    destruct (for_range_inv
      (λ x m, weather_cell_body cell_x cell_y radius intensity y x m)
      (λ done m', matrix_wf m' ∧ same_dims m' m ∧ data m' = data m ∧
         ∀ r c cur, load (weather m) r c = Some cur →
           load (weather m') r c =
             Some (if decide (r ∈ rows ∨ (r = y ∧ c ∈ done))
                   then merge_weather cur
                          (weather_candidate cell_x cell_y radius intensity c r)
                   else cur))
      0 (width m1) m1) as (m2 & Hrun2 & Hwf2 & Hdims2 & Hdata2 & Hcells2).
    + split; [done|]. split; [done|]. split; [done|].
      intros r c cur Hcur. rewrite (Hinv1 _ _ _ Hcur).
      f_equal. apply decide_ext. split; [by left|].
      intros [?|[_ Hc]]; [done|]. by apply elem_of_nil in Hc.
    + intros cols x m2 Hx (Hwf2 & [Hh2 Hw2] & Hda2 & Hinv2).
      destruct (weather_cell_body_spec cell_x cell_y radius intensity y x m2 Hwf2)
        as (m3 & Hrun3 & Hwf3 & [Hh3 Hw3] & Hda3 & Hl3);
        [unfold in_grid; lia|].
      exists m3. split; [done|]. split; [done|].
      split; [split; congruence|]. split; [congruence|].
      intros r c cur Hcur. rewrite (Hl3 _ _ _ (Hinv2 _ _ _ Hcur)).
      f_equal.
      destruct (decide (r = y ∧ c = x)) as [[-> ->]|Hne].
      * rewrite (decide_True (P := _ ∨ (_ ∧ x ∈ cols ++ [x]))).
        2:{ right. split; [done|]. apply elem_of_app. right. by left. }
        case_decide; [apply merge_weather_idem|done].
      * apply decide_ext. rewrite elem_of_app, list_elem_of_singleton.
        tauto.
    + exists m2. split; [done|]. split; [done|].
      split; [destruct Hdims2; split; congruence|]. split; [congruence|].
      intros r c cur Hcur. rewrite (Hcells2 _ _ _ Hcur). f_equal.
      apply decide_ext. rewrite elem_of_app, list_elem_of_singleton.
      pose proof (weather_loaded_in_grid _ _ _ _ Hwf Hcur) as [_ Hc].
      rewrite elem_of_seqZ. split.
      * intros [?|[-> _]]; [by left|by right].
      * intros [?|Hry]; [by left|right]. split; [done|lia].
  - exists m'. split; [done|]. split; [done|]. split; [done|]. split; [done|].
    intros y x cur Hcur. rewrite (Hcells _ _ _ Hcur).
    pose proof (weather_loaded_in_grid _ _ _ _ Hwf Hcur) as [Hy _].
    rewrite decide_True; [done|]. apply elem_of_seqZ. lia.
Qed.

(** The loop over the weather cells: the canvas keeps its symbols, no
    intensity decreases and none rises above 5 unless it was there before. *)
Lemma weather_cells_spec rand center_x center_y lo hi k m :
  matrix_wf m → rand_ok rand →
  ∃ k' m', for_range lo hi (λ _ s, weather_cell_step rand center_x center_y s)
             (k, m) = Some (k', m') ∧
    matrix_wf m' ∧ same_dims m' m ∧ data m' = data m ∧
    ∀ y x cur, load (weather m) y x = Some cur →
      ∃ cur', load (weather m') y x = Some cur' ∧ cur ≤ cur' ≤ Z.max cur 5.
Proof.
  intros Hwf Hrand.
  destruct (for_range_inv
    (λ _ s, weather_cell_step rand center_x center_y s)
    (λ _ s, matrix_wf s.2 ∧ same_dims s.2 m ∧ data s.2 = data m ∧
       ∀ y x cur, load (weather m) y x = Some cur →
         ∃ cur', load (weather s.2) y x = Some cur' ∧ cur ≤ cur' ≤ Z.max cur 5)
    lo hi (k, m)) as ([k' m'] & Hrun & Hinv).
  - simpl. split; [done|]. split; [done|]. split; [done|].
    intros y x cur Hcur. exists cur. split; [done|lia].
  - intros done i [k1 m1] _ (Hwf1 & [Hh1 Hw1] & Hda1 & Hinv1). simpl in *.
    set (cell_x := center_x - 30 + Z.rem (rand k1) 60).
    set (cell_y := center_y - 30 + Z.rem (rand (k1 + 1)%nat) 60).
    set (radius := 5 + Z.rem (rand (k1 + 2)%nat) 15).
    set (intensity := 1 + Z.rem (rand (k1 + 3)%nat) 5).
    assert (0 < radius).
    { pose proof (Z.rem_bound_pos (rand (k1 + 2)%nat) 15 (Hrand _)). lia. }
    assert (0 ≤ intensity ≤ 5).
    { pose proof (Z.rem_bound_pos (rand (k1 + 3)%nat) 5 (Hrand _)). lia. }
    destruct (draw_weather_cell_spec cell_x cell_y radius intensity m1 Hwf1)
      as (m2 & -> & Hwf2 & [Hh2 Hw2] & Hda2 & Hl2).
    cbn [mbind option_bind]. eexists. split; [done|]. simpl.
    split; [done|]. split; [split; congruence|]. split; [congruence|].
    intros y x cur Hcur. destruct (Hinv1 _ _ _ Hcur) as (cur1 & Hcur1 & Hle1).
    eexists. split; [by apply Hl2|].
    rewrite merge_weather_max.
    destruct (weather_candidate cell_x cell_y radius intensity x y) as [v|] eqn:Hv;
      [|done].
    apply weather_candidate_bounds in Hv; lia.
  - exists k', m'. split; [done|]. apply Hinv.
Qed.

Lemma fetch_weather_data_spec rand m :
  matrix_wf m → rand_ok rand →
  ∃ m', fetch_weather_data rand m = Some m' ∧
    matrix_wf m' ∧ same_dims m' m ∧ data m' = data m ∧
    ∀ y x cur, load (weather m) y x = Some cur →
      ∃ cur', load (weather m') y x = Some cur' ∧ cur ≤ cur' ≤ Z.max cur 5.
Proof.
  intros Hwf Hrand. unfold fetch_weather_data. cbv zeta.
  destruct (weather_cells_spec rand (width m ÷ 4) (height m ÷ 2)
              0 (3 + Z.rem (rand 0%nat) 5) 1%nat m Hwf Hrand)
    as (k' & m' & -> & Hspec).
  by exists m'.
Qed.

Lemma for_range_one {S : Type} (body : Z → S → option S) lo (s : S) :
  for_range lo (lo + 1) body s = body lo s.
Proof.
  unfold for_range. replace (lo + 1 - lo) with 1 by lia.
  rewrite seqZ_cons by lia. rewrite seqZ_nil by lia. simpl.
  by destruct (body lo s).
Qed.

(** The centre of the first generated cell ends at least as intense as
    the cell's base intensity. *)
Lemma fetch_weather_first_cell_centre rand m :
  matrix_wf m → rand_ok rand →
  let cell_x := width m ÷ 4 - 30 + Z.rem (rand 1%nat) 60 in
  let cell_y := height m ÷ 2 - 30 + Z.rem (rand 2%nat) 60 in
  let intensity := 1 + Z.rem (rand 4%nat) 5 in
  ∀ cur, load (weather m) cell_y (2 * cell_x) = Some cur →
  ∃ m' cur', fetch_weather_data rand m = Some m' ∧
    load (weather m') cell_y (2 * cell_x) = Some cur' ∧
    Z.max cur intensity ≤ cur' ≤ Z.max cur 5.
Proof.
  intros Hwf Hrand cell_x cell_y intensity cur Hcur.
  unfold fetch_weather_data. cbv zeta.
  pose proof (Z.rem_bound_pos (rand 0%nat) 5 (Hrand _)).
  pose proof (Z.rem_bound_pos (rand 3%nat) 15 (Hrand _)).
  pose proof (Z.rem_bound_pos (rand 4%nat) 5 (Hrand _)).
  rewrite (for_range_split _ 0 1 (3 + Z.rem (rand 0%nat) 5)) by lia.
  rewrite (for_range_one _ 0).
  change (weather_cell_step rand (width m ÷ 4) (height m ÷ 2) (1%nat, m))
    with (draw_weather_cell cell_x cell_y (5 + Z.rem (rand 3%nat) 15) intensity m
            ≫= λ m1, Some (5%nat, m1)).
  destruct (draw_weather_cell_spec cell_x cell_y
              (5 + Z.rem (rand 3%nat) 15) intensity m Hwf)
    as (m1 & -> & Hwf1 & Hdims1 & Hda1 & Hl1).
  cbn [mbind option_bind].
  destruct (weather_cells_spec rand (width m ÷ 4) (height m ÷ 2)
              1 (3 + Z.rem (rand 0%nat) 5) 5%nat m1 Hwf1 Hrand)
    as (k' & m' & -> & _ & _ & _ & Hl').
  specialize (Hl1 _ _ _ Hcur).
  rewrite weather_candidate_centre, merge_weather_max in Hl1 by lia.
  destruct (Hl' _ _ _ Hl1) as (cur' & Hcur' & Hle).
  exists m', cur'. split; [done|]. split; [done|]. lia.
Qed.

Lemma rand_ok_const : rand_ok (λ _, 4).
Proof. intros k. lia. Qed.

(** C7: merging weather into the canvas takes, cell by cell, the maximum
    of the stored intensity and the candidate; after one weather cell and
    after a whole generation no cell has a lower intensity than before, the
    symbol channel is untouched, and a canvas whose intensities lie in
    0..6 keeps them there. *)
Theorem weather_merge_monotone_in_range rand m :
  matrix_wf m → rand_ok rand →
  (∀ cur cand,
     merge_weather cur cand =
       match cand with Some v => Z.max cur v | None => cur end) ∧
  (∀ cell_x cell_y radius intensity,
     ∃ m1, draw_weather_cell cell_x cell_y radius intensity m = Some m1 ∧
       ∀ y x cur, load (weather m) y x = Some cur →
         load (weather m1) y x =
           Some (merge_weather cur
                   (weather_candidate cell_x cell_y radius intensity x y)) ∧
         cur ≤ merge_weather cur
                 (weather_candidate cell_x cell_y radius intensity x y)) ∧
  ∃ m', fetch_weather_data rand m = Some m' ∧
    data m' = data m ∧
    (∀ y x cur, load (weather m) y x = Some cur →
       ∃ cur', load (weather m') y x = Some cur' ∧ cur ≤ cur') ∧
    (weather_in_range m → weather_in_range m').
Proof.
  intros Hwf Hrand. split; [apply merge_weather_max|]. split.
  - intros cell_x cell_y radius intensity.
    destruct (draw_weather_cell_spec cell_x cell_y radius intensity m Hwf)
      as (m1 & Hrun & _ & _ & _ & Hl).
    exists m1. split; [done|]. intros y x cur Hcur. split; [by apply Hl|].
    rewrite merge_weather_max. destruct (weather_candidate _ _ _ _ _ _); lia.
  - destruct (fetch_weather_data_spec rand m Hwf Hrand)
      as (m' & Hrun & Hwf' & Hdims & Hdata & Hl).
    exists m'. split; [done|]. split; [done|]. split.
    + intros y x cur Hcur. destruct (Hl _ _ _ Hcur) as (cur' & ? & ?).
      exists cur'. split; [done|lia].
    + intros Hrange y x cur' Hcur'.
      pose proof (weather_loaded_in_grid _ _ _ _ Hwf' Hcur') as Hin.
      destruct Hdims as [Hh Hw]. rewrite Hh, Hw in Hin.
      destruct (load_in_grid (weather m) _ _ y x (proj1 (proj2 Hwf)) Hin)
        as [cur Hcur].
      destruct (Hl _ _ _ Hcur) as (cur2 & Hcur2 & Hle).
      rewrite Hcur' in Hcur2. injection Hcur2 as <-.
      specialize (Hrange _ _ _ Hcur).
      unfold WEATHER_NONE, WEATHER_EXTREME in *. lia.
Qed.

Lemma weather_merge_monotone_in_range_witness :
  let m := create_square_matrix 120 in
  let rand : rand_stream := λ _, 4 in
  matrix_wf m ∧ rand_ok rand ∧
  ∃ m', fetch_weather_data rand m = Some m' ∧
    data m' = data m ∧
    (∀ y x cur, load (weather m) y x = Some cur →
       ∃ cur', load (weather m') y x = Some cur' ∧ cur ≤ cur') ∧
    (weather_in_range m → weather_in_range m').
Proof.
  intros m rand. split; [apply canvas_120_wf|]. split; [apply rand_ok_const|].
  apply (weather_merge_monotone_in_range rand m canvas_120_wf rand_ok_const).
Defined.

(** The claim as stated fails: with every [rand()] returning 4 the first
    weather cell has base intensity 5 and its centre, row 34, column 68 of
    the fresh canvas, is set to WEATHER_INTENSE, which is above 4. *)
Lemma synthetic_weather_reaches_intense :
  ∃ m', fetch_weather_data (λ _, 4) (create_square_matrix 120) = Some m' ∧
    load (weather m') 34 68 = Some WEATHER_INTENSE ∧
    ¬ (WEATHER_INTENSE ≤ 4).
Proof.
  destruct (fetch_weather_first_cell_centre (λ _, 4) (create_square_matrix 120)
              canvas_120_wf rand_ok_const 0) as (m' & cur' & Hrun & Hcur' & Hle).
  { change (weather (create_square_matrix 120))
      with (replicate (Z.to_nat 120) (replicate (Z.to_nat 240) WEATHER_NONE)).
    apply (load_replicate WEATHER_NONE 120 240). unfold in_grid. by vm_compute. }
  exists m'. split; [done|]. split.
  - change (load (weather m') 34 68 = Some 5).
    change (load (weather m') 34 68 = Some cur') in Hcur'.
    rewrite Hcur'. f_equal.
    change (Z.max 0 5 ≤ cur' ≤ Z.max 0 5) in Hle. lia.
  - unfold WEATHER_INTENSE. lia.
Qed.

(** C10 (amended): every intensity the synthetic generator offers to a
    cell lies between 0 and the base intensity of its weather cell, hence
    is at most 5; it equals the base intensity at the centre of the weather
    cell, where the fade is exactly 1.  A generation never raises a cell
    above WEATHER_INTENSE, so WEATHER_EXTREME is out of its reach, while
    WEATHER_INTENSE is not. *)
Theorem synthetic_weather_at_most_intense rand m :
  matrix_wf m → rand_ok rand →
  (∀ cell_x cell_y radius intensity x y v,
     5 ≤ radius ≤ 19 → 1 ≤ intensity ≤ 5 →
     weather_candidate cell_x cell_y radius intensity x y = Some v →
     0 ≤ v ≤ intensity ∧ v ≤ WEATHER_INTENSE ∧ v < WEATHER_EXTREME) ∧
  (∀ cell_x cell_y radius intensity,
     5 ≤ radius ≤ 19 →
     weather_candidate cell_x cell_y radius intensity (2 * cell_x) cell_y
       = Some intensity) ∧
  ∃ m', fetch_weather_data rand m = Some m' ∧
    ∀ y x cur, load (weather m) y x = Some cur →
      ∃ cur', load (weather m') y x = Some cur' ∧
        cur' ≤ Z.max cur WEATHER_INTENSE ∧
        (cur < WEATHER_EXTREME → cur' < WEATHER_EXTREME).
Proof.
  intros Hwf Hrand. split_and!.
  - intros cell_x cell_y radius intensity x y v Hr Hi Hv.
    apply weather_candidate_bounds in Hv; [|lia..].
    unfold WEATHER_INTENSE, WEATHER_EXTREME. lia.
  - intros cell_x cell_y radius intensity Hr.
    apply weather_candidate_centre. lia.
  - destruct (fetch_weather_data_spec rand m Hwf Hrand)
      as (m' & Hrun & _ & _ & _ & Hl).
    exists m'. split; [done|]. intros y x cur Hcur.
    destruct (Hl _ _ _ Hcur) as (cur' & ? & ?). exists cur'.
    unfold WEATHER_INTENSE, WEATHER_EXTREME. split; [done|]. lia.
Qed.

Lemma synthetic_weather_at_most_intense_witness :
  let m := create_square_matrix 120 in
  let rand : rand_stream := λ _, 4 in
  matrix_wf m ∧ rand_ok rand ∧
  weather_candidate 34 34 9 5 (2 * 34) 34 = Some 5 ∧
  ∃ m', fetch_weather_data rand m = Some m' ∧
    ∀ y x cur, load (weather m) y x = Some cur →
      ∃ cur', load (weather m') y x = Some cur' ∧
        cur' ≤ Z.max cur WEATHER_INTENSE ∧
        (cur < WEATHER_EXTREME → cur' < WEATHER_EXTREME).
Proof.
  intros m rand. split; [apply canvas_120_wf|]. split; [apply rand_ok_const|].
  destruct (synthetic_weather_at_most_intense rand m canvas_120_wf rand_ok_const)
    as (_ & Hcentre & Hfetch).
  split; [apply Hcentre; lia | exact Hfetch].
Defined.

(** ** The control loop *)

Lemma sweep_step_wf source angle_step dest :
  matrix_wf dest → matrix_wf source → same_dims source dest →
  ∃ dest', sweep_step source angle_step dest = Some dest' ∧
    matrix_wf dest' ∧ same_dims dest' dest.
Proof.
  intros Hwf Hwfs Hdims. unfold sweep_step. cbv zeta.
  destruct (sweep_upto_spec source (width dest ÷ 2) (height dest ÷ 2)
              (sweep_theta angle_step)
              (max_radius (width dest ÷ 2) (height dest ÷ 2)) dest Hwf Hwfs Hdims)
    as (dest' & Hrun & Hwf' & Hdims' & _).
  by exists dest'.
Qed.

Lemma initial_state_wf : state_wf initial_state.
Proof.
  split_and!; simpl; try apply clear_matrix_wf, canvas_120_wf. done.
Qed.

Lemma aircraft_refresh_failure (format_f1 : double → string)
    current_time temp last :
  aircraft_refresh format_f1 current_time None temp last =
    Some (temp, if decide (current_time - last >= fetch_interval)
                then current_time else last).
Proof. unfold aircraft_refresh. by case_decide. Qed.

(** C8: when [fetch_aircraft_data] fails, the aircraft refresh hands the
    pending canvas back as it received it, symbols and weather alike, and
    only records the time of the attempt, so that the next attempt is due
    one fetch interval later.  Over the whole loop iteration the pending
    canvas changes only if the weather refresh is due in that same
    iteration, and then only as the weather generator leaves it. *)
Theorem fetch_failure_keeps_pending
    (format_f1 : double → string) current_time rand st :
  state_wf st → rand_ok rand →
  (∀ temp last,
     aircraft_refresh format_f1 current_time None temp last =
       Some (temp, if decide (current_time - last >= fetch_interval)
                   then current_time else last)) ∧
  ∃ st', main_iteration format_f1 current_time rand None st = Some st' ∧
    state_wf st' ∧
    data (temp_screen st') = data (temp_screen st) ∧
    (¬ current_time - last_weather_fetch st >= weather_fetch_interval →
       temp_screen st' = temp_screen st) ∧
    (current_time - last_weather_fetch st >= weather_fetch_interval →
       fetch_weather_data rand (temp_screen st) = Some (temp_screen st')) ∧
    (current_time - last_fetch_time st >= fetch_interval →
       last_fetch_time st' = current_time ∧
       ∀ later, later - last_fetch_time st' >= fetch_interval ↔
                later - current_time >= 10).
Proof.
  intros (Hwfs & Hwft & Hdims) Hrand. split.
  - intros temp last. apply aircraft_refresh_failure.
  - unfold main_iteration, weather_refresh.
    pose proof (aircraft_refresh_failure format_f1 current_time) as Hair.
    case_decide as Hdue.
    + destruct (fetch_weather_data_spec rand (temp_screen st) Hwft Hrand)
        as (temp & Hfetch & Hwf' & Hdims' & Hdata & _).
      rewrite Hfetch. cbn [mbind option_bind]. rewrite Hair.
      cbn [mbind option_bind].
      destruct (sweep_step_wf temp (current_angle st) (screen st))
        as (visible & -> & Hwfv & Hdimsv); [done|done|..].
      { destruct Hdims, Hdims'. split; congruence. }
      eexists. split; [done|]. simpl. split_and!; try done.
      * split_and!; simpl; try done.
        destruct Hdims, Hdims', Hdimsv. split; congruence.
      * case_decide; [|done]. intros _. split; [done|].
        intros later. unfold fetch_interval. lia.
    + cbn [mbind option_bind]. rewrite Hair. cbn [mbind option_bind].
      destruct (sweep_step_wf (temp_screen st) (current_angle st) (screen st))
        as (visible & -> & Hwfv & Hdimsv); [done..|].
      eexists. split; [done|]. simpl. split_and!; try done.
      * split_and!; simpl; try done.
        destruct Hdims, Hdimsv. split; congruence.
      * case_decide; [|done]. intros _. split; [done|].
        intros later. unfold fetch_interval. lia.
Qed.

Lemma fetch_failure_keeps_pending_witness :
  let fmt := λ _ : double, "0.0"%string in
  let rand : rand_stream := λ _, 4 in
  state_wf initial_state ∧ rand_ok rand ∧
  ∃ st', main_iteration fmt 100 rand None initial_state = Some st' ∧
    data (temp_screen st') = data (temp_screen initial_state) ∧
    fetch_weather_data rand (temp_screen initial_state) = Some (temp_screen st') ∧
    last_fetch_time st' = 100.
Proof.
  intros fmt rand. split; [apply initial_state_wf|]. split; [apply rand_ok_const|].
  destruct (fetch_failure_keeps_pending fmt 100 rand initial_state
              initial_state_wf rand_ok_const)
    as (_ & st' & Hrun & _ & Hdata & _ & Hweather & Hretry).
  exists st'. split; [done|]. split; [done|].
  split; [apply Hweather; by vm_compute | apply Hretry; by vm_compute].
Defined.

(** ** Canvases are determined by their cells *)


Lemma grid_ext {A} (g1 g2 : list (list A)) h w :
  rect g1 h w → rect g2 h w →
  (∀ row col, load g1 row col = load g2 row col) → g1 = g2.
Proof.
  intros (Hh & Hw & Hl1 & Hr1) (_ & _ & Hl2 & Hr2) Hload.
  apply list_eq. intros i.
  destruct (g1 !! i) as [r1|] eqn:E1.
  - pose proof (lookup_lt_Some _ _ _ E1) as Hi.
    destruct (lookup_lt_is_Some_2 g2 i) as [r2 E2]; [lia|]. rewrite E2. f_equal.
    pose proof (Forall_lookup_1 _ _ _ _ Hr1 E1) as Hlen1.
    pose proof (Forall_lookup_1 _ _ _ _ Hr2 E2) as Hlen2.
    simpl in Hlen1, Hlen2.
    apply list_eq. intros j. specialize (Hload (Z.of_nat i) (Z.of_nat j)).
    unfold load in Hload. rewrite !decide_True in Hload by lia.
    rewrite !Nat2Z.id, E1, E2 in Hload. exact Hload.
  - apply lookup_ge_None in E1. symmetry. apply lookup_ge_None. lia.
Qed.

Lemma matrix_ext m1 m2 :
  matrix_wf m1 → matrix_wf m2 → same_dims m1 m2 →
  (∀ row col, cell m1 row col = cell m2 row col) → m1 = m2.
Proof.
  intros (Hd1 & Hw1 & _) (Hd2 & Hw2 & _) [Hh Hw] Hcell.
  destruct m1 as [h1 w1 d1 we1], m2 as [h2 w2 d2 we2]. simpl in *. subst h2 w2.
  f_equal.
  - apply (grid_ext _ _ _ _ Hd1 Hd2). intros row col.
    by injection (Hcell row col).
  - apply (grid_ext _ _ _ _ Hw1 Hw2). intros row col.
    by injection (Hcell row col).
Qed.




Lemma clear_matrix_loads m row col :
  in_grid (height m) (width m) row col →
  load (data (clear_matrix m)) row col = Some blank ∧
  load (weather (clear_matrix m)) row col = Some WEATHER_NONE.
Proof.
  intros Hin. unfold clear_matrix. simpl. by rewrite !load_replicate.
Qed.

(** ** The cast is monotone *)





(** ** Footprint of a weather cell *)






(** X4: weather cells can be drawn in any order, and drawing one twice is
    drawing it once: the merge is a maximum. *)
Theorem weather_cells_commute ax ay ar ai bx by_ br bi m :
  matrix_wf m →
  ∃ m2,
    (draw_weather_cell ax ay ar ai m ≫= draw_weather_cell bx by_ br bi) = Some m2 ∧
    (draw_weather_cell bx by_ br bi m ≫= draw_weather_cell ax ay ar ai) = Some m2 ∧
    (draw_weather_cell ax ay ar ai m ≫= draw_weather_cell ax ay ar ai)
      = draw_weather_cell ax ay ar ai m.
Proof.
  intros Hwf.
  destruct (draw_weather_cell_spec ax ay ar ai m Hwf)
    as (ma & Ha & Hwfa & Hda & Hdata_a & Hla).
  destruct (draw_weather_cell_spec bx by_ br bi ma Hwfa)
    as (mab & Hab & Hwfab & Hdab & Hdata_ab & Hlab).
  destruct (draw_weather_cell_spec bx by_ br bi m Hwf)
    as (mb & Hb & Hwfb & Hdb & Hdata_b & Hlb).
  destruct (draw_weather_cell_spec ax ay ar ai mb Hwfb)
    as (mba & Hba & Hwfba & Hdba & Hdata_ba & Hlba).
  destruct (draw_weather_cell_spec ax ay ar ai ma Hwfa)
    as (maa & Haa & Hwfaa & Hdaa & Hdata_aa & Hlaa).
  assert (∀ m1 m2, matrix_wf m1 → matrix_wf m2 → same_dims m1 m → same_dims m2 m →
            data m1 = data m2 →
            (∀ y x cur, load (weather m) y x = Some cur →
               load (weather m1) y x = load (weather m2) y x) → m1 = m2) as Hext.
  { intros m1 m2 Hwf1 Hwf2 [Hh1 Hw1] [Hh2 Hw2] Hdata Hcells.
    apply matrix_ext; [done|done|split; congruence|].
    intros row col. unfold cell. rewrite Hdata. f_equal.
    destruct (decide (in_grid (height m) (width m) row col)) as [Hin|Hout].
    - destruct (load_in_grid (weather m) _ _ row col (proj1 (proj2 Hwf)) Hin)
        as [cur Hcur]. by apply (Hcells _ _ cur).
    - rewrite (load_outside (weather m1) (height m) (width m)); [|rewrite <- Hh1, <- Hw1; apply Hwf1|done].
      rewrite (load_outside (weather m2) (height m) (width m)); [done|rewrite <- Hh2, <- Hw2; apply Hwf2|done]. }
  exists mab. rewrite Ha, Hb. cbn [mbind option_bind].
  split; [done|]. split.
  - rewrite Hba. f_equal. apply (Hext mba mab Hwfba Hwfab).
    + destruct Hdb, Hdba. split; congruence.
    + destruct Hda, Hdab. split; congruence.
    + congruence.
    + intros y x cur Hcur.
      rewrite (Hlba _ _ _ (Hlb _ _ _ Hcur)), (Hlab _ _ _ (Hla _ _ _ Hcur)).
      f_equal. rewrite !merge_weather_max.
      destruct (weather_candidate ax ay ar ai x y),
               (weather_candidate bx by_ br bi x y); lia.
  - rewrite Haa. f_equal. apply (Hext maa ma Hwfaa Hwfa).
    + destruct Hda, Hdaa. split; congruence.
    + done.
    + congruence.
    + intros y x cur Hcur.
      rewrite (Hlaa _ _ _ (Hla _ _ _ Hcur)), (Hla _ _ _ Hcur).
      f_equal. apply merge_weather_idem.
Qed.

Lemma weather_cells_commute_witness :
  let m := create_square_matrix 120 in
  matrix_wf m ∧
  ∃ m2,
    (draw_weather_cell 60 60 10 5 m ≫= draw_weather_cell 70 50 8 3) = Some m2 ∧
    (draw_weather_cell 70 50 8 3 m ≫= draw_weather_cell 60 60 10 5) = Some m2.
Proof.
  intros m. split; [apply canvas_120_wf|].
  destruct (weather_cells_commute 60 60 10 5 70 50 8 3 m canvas_120_wf)
    as (m2 & H1 & H2 & _).
  by exists m2.
Defined.

(** ** The weather cells of a generation *)

Lemma merge_all_ge cells x y cur : cur ≤ merge_all cells x y cur.
Proof.
  revert cur. induction cells as [|[[[cx cy] r] i] cells IH]; intros cur; simpl.
  - unfold merge_all. simpl. lia.
  - unfold merge_all in *. simpl. etrans; [|apply IH].
    rewrite merge_weather_max. destruct (weather_candidate _ _ _ _ _ _); lia.
Qed.

Lemma merge_all_idem cells x y cur :
  merge_all cells x y (merge_all cells x y cur) = merge_all cells x y cur.
Proof.
  revert cur. induction cells as [|[[[cx cy] r] i] cells IH]; intros cur.
  - done.
  - unfold merge_all in *. simpl.
    set (c := weather_candidate cx cy r i x y).
    set (F := foldl _ (merge_weather cur c) cells).
    assert (merge_weather F c = F) as ->; [|apply IH].
    pose proof (merge_all_ge cells x y (merge_weather cur c)) as Hge.
    unfold merge_all in Hge. fold F in Hge.
    rewrite merge_weather_max in *. destruct c; lia.
Qed.

Lemma for_each_weather_cells rand center_x center_y (l : list Z) k m :
  matrix_wf m →
  ∃ m', for_each (λ _ s, weather_cell_step rand center_x center_y s) l (k, m)
          = Some ((k + 4 * length l)%nat, m') ∧
    matrix_wf m' ∧ same_dims m' m ∧ data m' = data m ∧
    ∀ y x cur, load (weather m) y x = Some cur →
      load (weather m') y x =
        Some (merge_all (weather_cells_from rand center_x center_y k (length l))
                        x y cur).
Proof.
  revert k m. induction l as [|j l IH]; intros k m Hwf.
  - exists m. simpl. rewrite Nat.add_0_r. by split_and!.
  - simpl.
    destruct (draw_weather_cell_spec
                (center_x - 30 + Z.rem (rand k) 60)
                (center_y - 30 + Z.rem (rand (k + 1)%nat) 60)
                (5 + Z.rem (rand (k + 2)%nat) 15)
                (1 + Z.rem (rand (k + 3)%nat) 5) m Hwf)
      as (m1 & -> & Hwf1 & [Hh1 Hw1] & Hd1 & Hl1).
    cbn [mbind option_bind].
    destruct (IH (k + 4)%nat m1 Hwf1) as (m' & Hrun & Hwf' & [Hh' Hw'] & Hd' & Hl').
    exists m'. rewrite Hrun. split; [do 2 f_equal; lia|].
    split; [done|]. split; [split; congruence|]. split; [congruence|].
    intros y x cur Hcur. by rewrite (Hl' _ _ _ (Hl1 _ _ _ Hcur)).
Qed.

Lemma fetch_weather_data_cells rand m :
  matrix_wf m →
  ∃ m', fetch_weather_data rand m = Some m' ∧
    matrix_wf m' ∧ same_dims m' m ∧ data m' = data m ∧
    ∀ y x cur, load (weather m) y x = Some cur →
      load (weather m') y x = Some (merge_all (generated_cells rand m) x y cur).
Proof.
  intros Hwf. unfold fetch_weather_data, for_range, generated_cells. cbv zeta.
  destruct (for_each_weather_cells rand (width m ÷ 4) (height m ÷ 2)
              (seqZ 0 (3 + Z.rem (rand 0%nat) 5 - 0)) 1 m Hwf)
    as (m' & -> & Hwf' & Hdims & Hdata & Hl).
  exists m'. split; [done|]. split; [done|]. split; [done|]. split; [done|].
  intros y x cur Hcur. rewrite (Hl _ _ _ Hcur). rewrite length_seqZ.
  by rewrite Z.sub_0_r.
Qed.

Lemma weather_cells_from_ranges rand center_x center_y k count c :
  rand_ok rand → c ∈ weather_cells_from rand center_x center_y k count →
  center_x - 30 ≤ c.1.1.1 ≤ center_x + 29 ∧
  center_y - 30 ≤ c.1.1.2 ≤ center_y + 29 ∧
  5 ≤ c.1.2 ≤ 19 ∧ 1 ≤ c.2 ≤ 5.
Proof.
  intros Hrand. revert k. induction count as [|count IH]; intros k Hc; simpl in Hc.
  - by apply elem_of_nil in Hc.
  - apply elem_of_cons in Hc as [->|Hc]; [|by eapply IH]. simpl.
    pose proof (Z.rem_bound_pos (rand k) 60 (Hrand _)).
    pose proof (Z.rem_bound_pos (rand (k + 1)%nat) 60 (Hrand _)).
    pose proof (Z.rem_bound_pos (rand (k + 2)%nat) 15 (Hrand _)).
    pose proof (Z.rem_bound_pos (rand (k + 3)%nat) 5 (Hrand _)).
    lia.
Qed.

Lemma weather_cells_from_length rand center_x center_y k count :
  length (weather_cells_from rand center_x center_y k count) = count.
Proof. revert k. induction count; intros k; simpl; [done|]. by rewrite IHcount. Qed.

(** X5: one generation draws between 3 and 7 weather cells, each centred
    within 30 below to 29 above the centre of the canvas in both
    coordinates, with a radius of 5 to 19 and a base intensity of 1 to 5;
    the intensity of every canvas cell afterwards is the merge of those
    weather cells into what it was. *)
Theorem generated_cells_ranges rand m :
  matrix_wf m → rand_ok rand →
  (3 ≤ length (generated_cells rand m) ≤ 7)%nat ∧
  (∀ cell_x cell_y radius intensity,
     (cell_x, cell_y, radius, intensity) ∈ generated_cells rand m →
     width m ÷ 4 - 30 ≤ cell_x ≤ width m ÷ 4 + 29 ∧
     height m ÷ 2 - 30 ≤ cell_y ≤ height m ÷ 2 + 29 ∧
     5 ≤ radius ≤ 19 ∧ 1 ≤ intensity ≤ 5) ∧
  ∃ m', fetch_weather_data rand m = Some m' ∧
    ∀ y x cur, load (weather m) y x = Some cur →
      load (weather m') y x = Some (merge_all (generated_cells rand m) x y cur).
Proof.
  intros Hwf Hrand. split_and!.
  - unfold generated_cells. rewrite weather_cells_from_length.
    pose proof (Z.rem_bound_pos (rand 0%nat) 5 (Hrand _)). lia.
  - unfold generated_cells. rewrite weather_cells_from_length.
    pose proof (Z.rem_bound_pos (rand 0%nat) 5 (Hrand _)). lia.
  - intros cell_x cell_y radius intensity Hc.
    apply (weather_cells_from_ranges _ _ _ _ _ _ Hrand Hc).
  - destruct (fetch_weather_data_cells rand m Hwf) as (m' & Hrun & _ & _ & _ & Hl).
    by exists m'.
Qed.

Lemma generated_cells_ranges_witness :
  let m := create_square_matrix 120 in
  let rand : rand_stream := λ _, 4 in
  matrix_wf m ∧ rand_ok rand ∧
  generated_cells rand m = replicate 7 (34, 34, 9, 5) ∧
  (3 ≤ length (generated_cells rand m) ≤ 7)%nat.
Proof.
  intros m rand. split; [apply canvas_120_wf|]. split; [apply rand_ok_const|].
  split; [by vm_compute|].
  apply (generated_cells_ranges rand m canvas_120_wf rand_ok_const).
Defined.

(** X6: generating again with the same generator state changes nothing:
    the second generation draws the same weather cells, which are already
    merged.  (The program reseeds with [time(NULL)], so two generations
    within the same second coincide.) *)
Theorem fetch_weather_data_same_seed rand m :
  matrix_wf m →
  ∃ m', fetch_weather_data rand m = Some m' ∧
    fetch_weather_data rand m' = Some m'.
Proof.
  intros Hwf.
  destruct (fetch_weather_data_cells rand m Hwf)
    as (m' & Hrun & Hwf' & Hdims & Hdata & Hl).
  destruct (fetch_weather_data_cells rand m' Hwf')
    as (m2 & Hrun2 & Hwf2 & Hdims2 & Hdata2 & Hl2).
  exists m'. split; [done|]. rewrite Hrun2. f_equal.
  assert (generated_cells rand m' = generated_cells rand m) as Hcells.
  { unfold generated_cells. destruct Hdims as [-> ->]. done. }
  apply matrix_ext; [done|done|done|].
  intros row col. unfold cell. rewrite Hdata2. f_equal.
  destruct (decide (in_grid (height m) (width m) row col)) as [Hin|Hout].
  - destruct (load_in_grid (weather m) _ _ row col (proj1 (proj2 Hwf)) Hin)
      as [cur Hcur].
    rewrite (Hl2 _ _ _ (Hl _ _ _ Hcur)), (Hl _ _ _ Hcur), Hcells.
    f_equal. apply merge_all_idem.
  - destruct Hdims as [Hh Hw], Hdims2 as [Hh2 Hw2].
    rewrite (load_outside (weather m2) (height m) (width m));
      [|rewrite <- Hh, <- Hw, <- Hh2, <- Hw2; apply Hwf2|done].
    rewrite (load_outside (weather m') (height m) (width m));
      [done|rewrite <- Hh, <- Hw; apply Hwf'|done].
Qed.

Lemma fetch_weather_data_same_seed_witness :
  let m := create_square_matrix 120 in
  matrix_wf m ∧
  ∃ m', fetch_weather_data (λ _, 4) m = Some m' ∧
    fetch_weather_data (λ _, 4) m' = Some m'.
Proof.
  intros m. split; [apply canvas_120_wf|].
  apply (fetch_weather_data_same_seed (λ _, 4) m canvas_120_wf).
Defined.

(** ** Decoding the aircraft feed *)

Lemma trim_trailing_spaces_spec s :
  ∃ k, s = trim_trailing_spaces s ++ replicate k " "%char.
Proof.
  induction s as [|c rest [k IH]]; simpl.
  - by exists O.
  - destruct (trim_trailing_spaces rest) as [|t trimmed] eqn:Ht.
    + case_decide as Hc.
      * subst c. exists (S k). simpl in *. by rewrite IH.
      * exists k. simpl in *. by rewrite IH.
    + exists k. simpl. by rewrite IH at 1.
Qed.

Lemma trim_trailing_spaces_last s :
  last (trim_trailing_spaces s) ≠ Some " "%char.
Proof.
  induction s as [|c rest IH]; simpl; [done|].
  destruct (trim_trailing_spaces rest) as [|t trimmed] eqn:Ht.
  - case_decide; [done|]. simpl. congruence.
  - by rewrite last_cons_cons.
Qed.

Lemma trim_trailing_spaces_length s :
  (length (trim_trailing_spaces s) ≤ length s)%nat.
Proof.
  destruct (trim_trailing_spaces_spec s) as [k Hk].
  rewrite Hk at 2. rewrite length_app. lia.
Qed.

Lemma trim_trailing_spaces_elem c s :
  c ∈ trim_trailing_spaces s → c ∈ s.
Proof.
  destruct (trim_trailing_spaces_spec s) as [k Hk]. intros Hc.
  rewrite Hk. apply elem_of_app. by left.
Qed.

Lemma c_string_no_nul s : NUL ∉ c_string s.
Proof.
  induction s as [|c rest IH]; simpl; [apply not_elem_of_nil|].
  case_decide; [apply not_elem_of_nil|].
  apply not_elem_of_cons. split; [congruence|done].
Qed.

Lemma omap_seq_lookup {A B} (f : option A → option B) (l : list A) :
  omap (λ i, f (l !! i)) (seq 0 (length l)) = omap (λ x, f (Some x)) l.
Proof.
  induction l as [|x l IH] using rev_ind; [done|].
  rewrite length_app. simpl. rewrite Nat.add_1_r, seq_S, !omap_app. simpl.
  rewrite lookup_app_r, Nat.sub_diag by lia. simpl. f_equal.
  rewrite <- IH. apply list_omap_ext, Forall_Forall2_diag, Forall_forall.
  intros i Hi. apply elem_of_seq in Hi. by rewrite lookup_app_l by lia.
Qed.

Lemma fetch_aircraft_data_states dist root elements :
  json_object_get root "states" = Some (JArray elements) →
  fetch_aircraft_data dist root =
    Some (omap (λ s, decode_state dist (Some s)) elements).
Proof.
  intros Hstates. unfold fetch_aircraft_data.
  destruct root as [r|]; [|done]. rewrite Hstates. simpl.
  f_equal. apply (omap_seq_lookup (λ s, decode_state dist s)).
Qed.

Lemma length_omap_le {A B} (f : A → option B) (l : list A) :
  (length (omap f l) ≤ length l)%nat.
Proof.
  induction l as [|x l IH]; [done|]. csimpl.
  destruct (f x); simpl; lia.
Qed.

Lemma decode_state_record dist state ac :
  decode_state dist state = Some ac →
  json_is_string (json_array_get state 1) = true ∧
  json_is_number (json_array_get state 6) = true ∧
  json_is_number (json_array_get state 5) = true ∧
  json_is_number (json_array_get state 7) = true ∧
  list_ascii_of_string (callsign ac) =
    trim_trailing_spaces
      (take 15 (c_string (list_ascii_of_string
                            (json_string_value (json_array_get state 1))))) ∧
  latitude ac = json_number_value (json_array_get state 6) ∧
  longitude ac = json_number_value (json_array_get state 5) ∧
  altitude ac = json_number_value (json_array_get state 7) ∧
  velocity ac = (if json_is_number (json_array_get state 9)
                 then json_number_value (json_array_get state 9) else 0%R) ∧
  squawk ac = 0 ∧
  distance ac = dist (latitude ac) (longitude ac) ∧
  (distance ac <= RANGE_NM)%R.
Proof.
  unfold decode_state. cbv zeta.
  destruct (json_is_string (json_array_get state 1)); [|done].
  destruct (json_is_number (json_array_get state 6)); [|done].
  destruct (json_is_number (json_array_get state 5)); [|done].
  destruct (json_is_number (json_array_get state 7)); [|done].
  simpl. destruct (Rle_dec _ _) as [Hle|]; [|done]. intros [= <-]. simpl.
  rewrite list_ascii_of_string_of_list_ascii.
  split_and!; try done.
  destruct (json_is_number (json_array_get state 9)); [done|lra].
Qed.

(** X7: every record the decoder returns lies within [RANGE_NM] of the
    reference point, has squawk 0, and carries a callsign of at most 15
    characters without a NUL and without trailing blanks; there are no
    more records than states in the response. *)
Theorem fetch_aircraft_data_records dist root elements :
  json_object_get root "states" = Some (JArray elements) →
  ∃ aircraft_list,
    fetch_aircraft_data dist root = Some aircraft_list ∧
    (length aircraft_list ≤ length elements)%nat ∧
    ∀ ac, ac ∈ aircraft_list →
      squawk ac = 0 ∧
      distance ac = dist (latitude ac) (longitude ac) ∧
      (distance ac <= RANGE_NM)%R ∧
      (length (list_ascii_of_string (callsign ac)) ≤ 15)%nat ∧
      (NUL ∉ list_ascii_of_string (callsign ac)) ∧
      (last (list_ascii_of_string (callsign ac)) ≠ Some " "%char).
Proof.
  intros Hstates. rewrite (fetch_aircraft_data_states _ _ _ Hstates).
  eexists. split; [done|]. split; [apply length_omap_le|].
  intros ac Hac. apply list_elem_of_omap in Hac as (state & _ & Hdec).
  apply decode_state_record in Hdec
    as (_ & _ & _ & _ & Hcs & _ & _ & _ & _ & Hsq & Hdist & Hrange).
  split; [done|]. split; [done|]. split; [done|]. rewrite Hcs. split_and!.
  - etrans; [apply trim_trailing_spaces_length|]. rewrite length_take. lia.
  - intros Hnul. apply trim_trailing_spaces_elem in Hnul.
    apply elem_of_take in Hnul as (i & Hi & _).
    apply list_elem_of_lookup_2 in Hi. by apply c_string_no_nul in Hi.
  - apply trim_trailing_spaces_last.
Qed.

Lemma fetch_aircraft_data_records_witness :
  let state := JArray [JString "4b1805"; JString "SWR123  "; JString "Switzerland";
                       JInteger 0; JInteger 0; JReal LSZH_LON; JReal LSZH_LAT;
                       JInteger 3000; JFalse; JInteger 120] in
  let far := JArray [JString "3c6444"; JString "DLH9AB  "; JString "Germany";
                     JInteger 0; JInteger 0; JReal 13.4%R; JReal 52.5%R;
                     JInteger 11000; JFalse; JInteger 230] in
  let root := Some (JObject [("time", JInteger 1700000000);
                             ("states", JArray [state; far])]) in
  let dist : double → double → double :=
    λ lat lon, (60 * Rabs (lat - LSZH_LAT) + 60 * Rabs (lon - LSZH_LON))%R in
  json_object_get root "states" = Some (JArray [state; far]) ∧
  ∃ ac, fetch_aircraft_data dist root = Some [ac] ∧
    callsign ac = "SWR123"%string ∧ (distance ac <= RANGE_NM)%R.
Proof.
  intros state far root dist. split; [reflexivity|].
  destruct (fetch_aircraft_data_records dist root [state; far] eq_refl)
    as (l & Hrun & Hlen & Hall).
  assert (decode_state dist (Some state) =
          Some {| callsign := "SWR123"; latitude := LSZH_LAT;
                  longitude := LSZH_LON; altitude := IZR 3000;
                  velocity := IZR 120; squawk := 0;
                  distance := dist LSZH_LAT LSZH_LON |}) as Hdec.
  { unfold decode_state. cbv zeta. simpl json_is_string. simpl json_is_number.
    simpl negb. simpl orb. cbv iota. simpl json_number_value.
    destruct (Rle_dec (dist LSZH_LAT LSZH_LON) RANGE_NM) as [_|Hn]; [reflexivity|].
    exfalso. apply Hn. unfold dist, RANGE_NM.
    rewrite !Rminus_diag, Rabs_R0. lra. }
  assert (decode_state dist (Some far) = None) as Hfar.
  { unfold decode_state. cbv zeta. simpl json_is_string. simpl json_is_number.
    simpl negb. simpl orb. cbv iota. simpl json_number_value.
    destruct (Rle_dec (dist 52.5%R 13.4%R) RANGE_NM) as [Hle|_]; [|reflexivity].
    exfalso. unfold dist, RANGE_NM, LSZH_LAT, LSZH_LON in Hle.
    rewrite !Rabs_pos_eq in Hle by lra. lra. }
  assert (fetch_aircraft_data dist root =
          Some [ {| callsign := "SWR123"; latitude := LSZH_LAT;
                    longitude := LSZH_LON; altitude := IZR 3000;
                    velocity := IZR 120; squawk := 0;
                    distance := dist LSZH_LAT LSZH_LON |} ]) as Hlist.
  { rewrite (fetch_aircraft_data_states dist root [state; far] eq_refl).
    cbn [omap list_omap]. by rewrite Hdec, Hfar. }
  eexists. split; [exact Hlist|]. split; [reflexivity|].
  rewrite Hlist in Hrun. injection Hrun as <-.
  apply Hall. by left.
Defined.

(** X8: a state that lacks a string callsign or a numeric latitude,
    longitude or altitude is skipped: the result is the one for the
    response without that state, and the call still succeeds. *)
Theorem fetch_aircraft_data_skips_malformed dist root root' before bad after :
  json_object_get root "states" = Some (JArray (before ++ bad :: after)) →
  json_object_get root' "states" = Some (JArray (before ++ after)) →
  json_is_string (json_array_get (Some bad) 1) = false ∨
  json_is_number (json_array_get (Some bad) 6) = false ∨
  json_is_number (json_array_get (Some bad) 5) = false ∨
  json_is_number (json_array_get (Some bad) 7) = false →
  fetch_aircraft_data dist root = fetch_aircraft_data dist root' ∧
  is_Some (fetch_aircraft_data dist root).
Proof.
  intros Hroot Hroot' Hbad.
  rewrite (fetch_aircraft_data_states _ _ _ Hroot),
          (fetch_aircraft_data_states _ _ _ Hroot').
  split; [|by eexists]. f_equal. rewrite !omap_app. f_equal. csimpl.
  assert (decode_state dist (Some bad) = None) as ->; [|done].
  unfold decode_state. cbv zeta.
  destruct Hbad as [Hb|[Hb|[Hb|Hb]]]; rewrite Hb; simpl; by rewrite ?orb_true_r.
Qed.

Lemma fetch_aircraft_data_skips_malformed_witness :
  let good := JArray [JString "4b1805"; JString "SWR123  "; JString "Switzerland";
                      JInteger 0; JInteger 0; JReal LSZH_LON; JReal LSZH_LAT;
                      JInteger 3000; JFalse; JInteger 120] in
  let bad := JArray [JString "4b1806"; JNull; JString "Switzerland";
                     JInteger 0; JInteger 0; JNull; JNull; JNull] in
  let root := Some (JObject [("states", JArray ([good] ++ bad :: [good]))]) in
  let root' := Some (JObject [("states", JArray ([good] ++ [good]))]) in
  let dist : double → double → double := λ _ _, 0%R in
  json_is_string (json_array_get (Some bad) 1) = false ∧
  fetch_aircraft_data dist root = fetch_aircraft_data dist root'.
Proof.
  intros good bad root root' dist. split; [reflexivity|].
  apply (fetch_aircraft_data_skips_malformed dist root root' [good] bad [good]
           eq_refl eq_refl (or_introl eq_refl)).
Defined.



(** ** Drawing the aircraft *)

Section Drawing.

Variable format_f1 : double → string.

(** The loop body for one aircraft on a canvas of at least 7 rows and 2
    columns: it never leaves the grid, and the cells it changes lie in
    rows [screen_y - 5 .. screen_y]. *)
Lemma draw_aircraft_spec tmp ac :
  matrix_wf tmp → 2 ≤ width tmp → 7 ≤ height tmp →
  let p := latlon_to_screen (latitude ac) (longitude ac) (width tmp) (height tmp) in
  let line_at k :=
    label_lines format_f1 (callsign ac) (altitude_ft ac) (speed_kts ac)
                (distance ac) !!! Z.to_nat k in
  ∃ tmp', draw_aircraft format_f1 tmp ac = Some tmp' ∧
    matrix_wf tmp' ∧ same_dims tmp' tmp ∧ weather tmp' = weather tmp ∧
    ∀ r c, load (data tmp') r c =
      if decide (altitude_ft ac ≤ 1800 ∨ speed_kts ac ≤ 60) then load (data tmp) r c
      else if decide (p.2 - 5 ≤ r < p.2 - 1 ∧ 2 * (p.1 + 1) ≤ c < width tmp ∧
                      c - 2 * (p.1 + 1) < Z.of_nat (length (line_at (r - (p.2 - 5)))))
      then line_at (r - (p.2 - 5)) !! Z.to_nat (c - 2 * (p.1 + 1))
      else if decide (r = p.2 - 1 ∧ c = 2 * (p.1 + 1) ∧ c < width tmp)
      then Some "/"%char
      else if decide (r = p.2 ∧ c = 2 * p.1) then Some "X"%char
      else load (data tmp) r c.
Proof.
  intros Hwf Hw Hh p line_at.
  pose proof (latlon_to_screen_clamped (latitude ac) (longitude ac) _ _ Hw Hh)
    as [Hx Hy].
  fold p in Hx, Hy. unfold draw_aircraft. fold p.
  destruct p as [sx sy]. simpl in *. cbv zeta.
  pose proof Hwf as (_ & _ & Hhr & Hwr).
  assert (2 * (sx + 1) ≤ width tmp).
  { rewrite Z.quot_div_nonneg in Hx by lia.
    pose proof (Z.mul_div_le (width tmp) 2). lia. }
  assert (width tmp ≤ CInt.INT_MAX ∧ height tmp ≤ CInt.INT_MAX) as [? ?]
    by (unfold CInt.in_range in *; lia).
  case_decide as Hfilter.
  { exists tmp. by split_and!. }
  assert (CInt.mul sx 2 = 2 * sx) as Hmx.
  { unfold CInt.mul. rewrite Z.mul_comm. apply CIntFacts.wrap_small, in_range_small. lia. }
  assert (CInt.sub sy 1 = sy - 1) as Hs1
    by (apply CIntFacts.wrap_small, in_range_small; lia).
  assert (CInt.sub sy 5 = sy - 5) as Hs5
    by (apply CIntFacts.wrap_small, in_range_small; lia).
  assert (CInt.mul (CInt.add sx 1) 2 = 2 * (sx + 1)) as Hmx1.
  { unfold CInt.mul, CInt.add.
    rewrite (CIntFacts.wrap_small (sx + 1)) by (apply in_range_small; lia).
    rewrite Z.mul_comm. apply CIntFacts.wrap_small, in_range_small. lia. }
  destruct (display_symbol_spec tmp sx sy Hwf)
    as (m1 & -> & Hwf1 & [Hh1 Hw1] & Hwe1 & Hl1).
  cbn [mbind option_bind].
  destruct (display_slash_spec m1 sx sy Hwf1)
    as (m2 & -> & Hwf2 & [Hh2 Hw2] & Hwe2 & Hl2).
  cbn [mbind option_bind].
  destruct (display_info_spec format_f1 m2 sx sy (callsign ac)
              (altitude_ft ac) (speed_kts ac) (distance ac) Hwf2)
    as (m3 & -> & Hwf3 & [Hh3 Hw3] & Hwe3 & Hl3); [lia..|].
  exists m3. split; [done|]. split; [done|].
  split; [split; congruence|]. split; [congruence|].
  intros r c. rewrite Hl3, Hl2, Hl1, Hs5, Hs1, Hmx, Hmx1, Hw2, Hw1, Hh1.
  unfold in_grid. subst line_at. cbv beta.
  set (len := Z.of_nat (length _)).
  rewrite (decide_ext (sy - 5 ≤ r < sy - 5 + 4 ∧ 2 * (sx + 1) ≤ c < width tmp ∧
                       c - 2 * (sx + 1) < len)
                      (sy - 5 ≤ r < sy - 1 ∧ 2 * (sx + 1) ≤ c < width tmp ∧
                       c - 2 * (sx + 1) < len)) by lia.
  destruct (decide (sy - 5 ≤ r < sy - 1 ∧ _)); [done|].
  rewrite (decide_ext ((0 ≤ sy - 1 < height tmp ∧ 0 ≤ 2 * (sx + 1) < width tmp) ∧
                       r = sy - 1 ∧ c = 2 * (sx + 1))
                      (r = sy - 1 ∧ c = 2 * (sx + 1) ∧ c < width tmp)) by lia.
  destruct (decide (r = sy - 1 ∧ _)); [done|].
  by rewrite (decide_ext ((0 ≤ sy < height tmp ∧ 0 ≤ 2 * sx < width tmp) ∧
                          r = sy ∧ c = 2 * sx)
                         (r = sy ∧ c = 2 * sx)) by lia.
Qed.

Lemma draw_all_spec tmp aircraft_list :
  matrix_wf tmp → 2 ≤ width tmp → 7 ≤ height tmp →
  ∃ tmp', draw_all format_f1 tmp aircraft_list = Some tmp' ∧
    matrix_wf tmp' ∧ same_dims tmp' tmp ∧ weather tmp' = weather tmp ∧
    (∀ c, load (data tmp') 0 c = load (data tmp) 0 c) ∧
    (Forall (λ ac, altitude_ft ac ≤ 1800 ∨ speed_kts ac ≤ 60) aircraft_list →
       tmp' = tmp).
Proof.
  revert tmp. induction aircraft_list as [|ac rest IH]; intros tmp Hwf Hw Hh; simpl.
  - exists tmp. by split_and!.
  - destruct (draw_aircraft_spec tmp ac Hwf Hw Hh)
      as (m1 & Hrun1 & Hwf1 & [Hh1 Hw1] & Hwe1 & Hl1).
    rewrite Hrun1. cbn [mbind option_bind].
    destruct (IH m1 Hwf1) as (m2 & -> & Hwf2 & [Hh2 Hw2] & Hwe2 & Hrow0 & Hnone);
      [lia..|].
    exists m2. split; [done|]. split; [done|].
    split; [split; congruence|]. split; [congruence|]. split.
    + intros c. rewrite Hrow0, Hl1.
      pose proof (latlon_to_screen_clamped (latitude ac) (longitude ac) _ _ Hw Hh)
        as [_ Hy].
      repeat case_decide; try done; lia.
    + intros Hall. apply Forall_cons in Hall as [Hac Hrest].
      rewrite (Hnone Hrest). unfold draw_aircraft in Hrun1.
      destruct (latlon_to_screen _ _ _ _). rewrite decide_True in Hrun1 by done.
      by injection Hrun1.
Qed.

End Drawing.

(** X10: the drawing of one displayed aircraft on a canvas of at least
    7 rows and 2 columns: [X] at column [2x], row [y]; [/] one row up and
    two columns to the right when that column exists; the label lines from
    row [y - 5] on, starting at column [2(x + 1)], as far as they fit;
    nothing outside rows [y - 5 .. y], so never in the title row; weather
    untouched. *)
Theorem draw_aircraft_layout (format_f1 : double → string) tmp ac :
  matrix_wf tmp → 2 ≤ width tmp → 7 ≤ height tmp →
  altitude_ft ac > 1800 → speed_kts ac > 60 →
  let p := latlon_to_screen (latitude ac) (longitude ac) (width tmp) (height tmp) in
  let x := p.1 in
  let y := p.2 in
  ∃ tmp', draw_aircraft format_f1 tmp ac = Some tmp' ∧
    weather tmp' = weather tmp ∧
    load (data tmp') y (2 * x) = Some "X"%char ∧
    (2 * (x + 1) < width tmp →
       load (data tmp') (y - 1) (2 * (x + 1)) = Some "/"%char) ∧
    (∀ k line i ch,
       label_lines format_f1 (callsign ac) (altitude_ft ac) (speed_kts ac)
                   (distance ac) !! k = Some line →
       line !! i = Some ch →
       2 * (x + 1) + Z.of_nat i < width tmp →
       load (data tmp') (y - 5 + Z.of_nat k) (2 * (x + 1) + Z.of_nat i) = Some ch) ∧
    (∀ r c, r < y - 5 ∨ y < r → load (data tmp') r c = load (data tmp) r c) ∧
    1 ≤ y - 5.
Proof.
  intros Hwf Hw Hh Halt Hspd p x y.
  pose proof (latlon_to_screen_clamped (latitude ac) (longitude ac) _ _ Hw Hh)
    as [Hx Hy]. fold p in Hx, Hy. fold x in Hx. fold y in Hy.
  destruct (draw_aircraft_spec format_f1 tmp ac Hwf Hw Hh)
    as (tmp' & Hrun & _ & _ & Hwe & Hl).
  fold p in Hl. fold x y in Hl.
  exists tmp'. split; [done|]. split; [done|].
  assert (∀ r c, load (data tmp') r c =
    if decide (y - 5 ≤ r < y - 1 ∧ 2 * (x + 1) ≤ c < width tmp ∧
               c - 2 * (x + 1) <
                 Z.of_nat (length (label_lines format_f1 (callsign ac)
                   (altitude_ft ac) (speed_kts ac) (distance ac)
                   !!! Z.to_nat (r - (y - 5)))))
    then (label_lines format_f1 (callsign ac) (altitude_ft ac) (speed_kts ac)
            (distance ac) !!! Z.to_nat (r - (y - 5))) !! Z.to_nat (c - 2 * (x + 1))
    else if decide (r = y - 1 ∧ c = 2 * (x + 1) ∧ c < width tmp)
    then Some "/"%char
    else if decide (r = y ∧ c = 2 * x) then Some "X"%char
    else load (data tmp) r c) as Hl'.
  { intros r c. rewrite Hl. rewrite decide_False by lia. done. }
  clear Hl. split_and!.
  - rewrite Hl'. repeat case_decide; (done || lia).
  - intros Hfit. rewrite Hl'. repeat case_decide; (done || lia).
  - intros k line i ch Hline Hch Hfit.
    pose proof (lookup_lt_Some _ _ _ Hline) as Hk. simpl in Hk.
    pose proof (lookup_lt_Some _ _ _ Hch) as Hi.
    rewrite Hl'.
    replace (Z.to_nat (y - 5 + Z.of_nat k - (y - 5))) with k by lia.
    rewrite (list_lookup_total_correct _ _ _ Hline).
    rewrite decide_True by lia.
    replace (Z.to_nat (2 * (x + 1) + Z.of_nat i - 2 * (x + 1))) with i by lia.
    done.
  - intros r c Hr. rewrite Hl'. repeat case_decide; (done || lia).
  - lia.
Qed.

Lemma draw_aircraft_layout_witness :
  let tmp := create_square_matrix 120 in
  let fmt := λ _ : double, "0.0"%string in
  let ac := {| callsign := "SWR123"; latitude := LSZH_LAT; longitude := LSZH_LON;
               altitude := 3000; velocity := 100; squawk := 0;
               distance := 0 |} in
  matrix_wf tmp ∧ altitude_ft ac > 1800 ∧ speed_kts ac > 60 ∧
  ∃ tmp', draw_aircraft fmt tmp ac = Some tmp' ∧
    load (data tmp') 60 120 = Some "X"%char ∧
    load (data tmp') 59 122 = Some "/"%char ∧
    load (data tmp') 55 122 = Some "S"%char.
Proof.
  intros tmp fmt ac.
  assert (altitude_ft ac = 9842) as Hft.
  { unfold altitude_ft. simpl. apply double_to_int_nonneg; [lra|lia]. }
  assert (speed_kts ac = 194) as Hkt.
  { unfold speed_kts. simpl. apply double_to_int_nonneg; [lra|lia]. }
  assert (2 ≤ width tmp) as Hw by (by vm_compute).
  assert (7 ≤ height tmp) as Hh by (by vm_compute).
  split; [apply canvas_120_wf|]. split; [lia|]. split; [lia|].
  destruct (draw_aircraft_layout fmt tmp ac canvas_120_wf Hw Hh)
    as (tmp' & Hrun & _ & HX & Hslash & Hlabel & _); [lia|lia|].
  change (latitude ac) with LSZH_LAT in *. change (longitude ac) with LSZH_LON in *.
  rewrite (latlon_to_screen_reference (width tmp) (height tmp)) in *
    by (by vm_compute).
  exists tmp'. split; [done|]. split; [exact HX|].
  split; [apply Hslash; by vm_compute|].
  apply (Hlabel 0%nat _ 0%nat "S"%char eq_refl eq_refl). by vm_compute.
Defined.

Section Refresh.

Variable format_f1 : double → string.

Lemma redraw_aircraft_spec temp aircraft_list :
  matrix_wf temp → 2 ≤ width temp → 7 ≤ height temp →
  ∃ m', redraw_aircraft format_f1 temp aircraft_list = Some m' ∧
    matrix_wf m' ∧ same_dims m' temp ∧ weather m' = weather temp ∧
    (∀ c, 0 ≤ c < width temp →
       load (data m') 0 c =
         Some (default blank
                 (title_text (Z.of_nat (length aircraft_list)) !! Z.to_nat c))) ∧
    (Forall (λ ac, altitude_ft ac ≤ 1800 ∨ speed_kts ac ≤ 60) aircraft_list →
       ∀ r c, in_grid (height temp) (width temp) r c → 0 < r →
         load (data m') r c =
           Some (if decide (r = height temp ÷ 2 ∧ c = width temp ÷ 4 * 2)
                 then "+"%char else blank)).
Proof.
  intros Hwf Hw Hh. unfold redraw_aircraft. cbv zeta.
  fold (title_text (Z.of_nat (length aircraft_list))).
  set (title := title_text (Z.of_nat (length aircraft_list))).
  set (m0 := with_data temp _).
  pose proof Hwf as ((Hh0 & Hw0 & _) & Hwe & Hhr & Hwr).
  assert (matrix_wf m0) as Hwf0.
  { split_and!; try done. simpl. by apply replicate_rect. }
  assert (∀ r c, in_grid (height temp) (width temp) r c →
            load (data m0) r c = Some blank) as Hblank.
  { intros r c Hin. simpl. by apply load_replicate. }
  destruct (text_loop_spec 0 0 title 0 m0 Hwf0)
    as (m1 & -> & Hwf1 & [Hh1 Hw1] & Hwe1 & Hl1); [simpl; lia|lia|].
  cbn [mbind option_bind]. simpl in Hh1, Hw1.
  change (weather m0) with (weather temp) in Hwe1.
  assert (0 ≤ width temp ÷ 4 * 2 < width temp) as Hmark.
  { rewrite Z.quot_div_nonneg by lia.
    pose proof (Z.mul_div_le (width temp) 4). 
    pose proof (Z.div_pos (width temp) 4). lia. }
  assert (3 ≤ height temp ÷ 2 < height temp) as Hmarky.
  { split; [apply Z.quot_le_lower_bound; lia|apply Z.quot_lt; lia]. }
  rewrite Hh1, Hw1. rewrite decide_True by lia.
  destruct (store_data_spec m1 (height temp ÷ 2) (width temp ÷ 4 * 2) "+"%char Hwf1)
    as (m2 & -> & Hwf2 & [Hh2 Hw2] & Hwe2 & Hl2); [unfold in_grid; lia|].
  cbn [mbind option_bind].
  destruct (draw_all_spec format_f1 m2 aircraft_list Hwf2)
    as (m3 & -> & Hwf3 & [Hh3 Hw3] & Hwe3 & Hrow0 & Hnone); [lia..|].
  exists m3. split; [done|]. split; [done|].
  split; [split; congruence|]. split; [congruence|]. split.
  - intros c Hc. rewrite Hrow0, Hl2, decide_False by lia.
    rewrite Hl1. change (width m0) with (width temp).
    change (data m0) with (replicate (Z.to_nat (height temp))
                             (replicate (Z.to_nat (width temp)) blank)).
    case_decide as Hin.
    + destruct (lookup_lt_is_Some_2 title (Z.to_nat (c - (0 + 0)))) as [ch Hch];
        [lia|].
      rewrite Hch. replace (Z.to_nat c) with (Z.to_nat (c - (0 + 0))) by lia.
      by rewrite Hch.
    + rewrite load_replicate by (unfold in_grid; lia).
      rewrite lookup_ge_None_2; [done|lia].
  - intros Hall r c Hin Hr. rewrite (Hnone Hall), Hl2.
    case_decide; [done|]. rewrite Hl1, decide_False by lia. by apply Hblank.
Qed.

End Refresh.

(** X11: a successful refresh rebuilds the symbols of the pending canvas
    from scratch and keeps its weather: row 0 is the title, padded with
    blanks, whatever the aircraft are; without displayed aircraft the rest
    is blank but for the [+] of the reference point at the centre. *)
Theorem redraw_aircraft_title (format_f1 : double → string) temp aircraft_list :
  matrix_wf temp → 2 ≤ width temp → 7 ≤ height temp →
  ∃ m', redraw_aircraft format_f1 temp aircraft_list = Some m' ∧
    same_dims m' temp ∧ weather m' = weather temp ∧
    (∀ c, 0 ≤ c < width temp →
       load (data m') 0 c =
         Some (default blank
                 (title_text (Z.of_nat (length aircraft_list)) !! Z.to_nat c))) ∧
    (Forall (λ ac, altitude_ft ac ≤ 1800 ∨ speed_kts ac ≤ 60) aircraft_list →
       ∀ r c, in_grid (height temp) (width temp) r c → 0 < r →
         load (data m') r c =
           Some (if decide (r = height temp ÷ 2 ∧ c = width temp ÷ 4 * 2)
                 then "+"%char else blank)).
Proof.
  intros Hwf Hw Hh.
  destruct (redraw_aircraft_spec format_f1 temp aircraft_list Hwf Hw Hh)
    as (m' & Hrun & _ & Hrest).
  by exists m'.
Qed.

Lemma redraw_aircraft_title_witness :
  let temp := create_square_matrix 120 in
  let fmt := λ _ : double, "0.0"%string in
  matrix_wf temp ∧ 2 ≤ width temp ∧ 7 ≤ height temp ∧
  ∃ m', redraw_aircraft fmt temp [] = Some m' ∧
    load (data m') 0 17 = Some "0"%char ∧
    load (data m') 0 200 = Some " "%char ∧
    load (data m') 60 120 = Some "+"%char ∧
    load (data m') 61 120 = Some " "%char.
Proof.
  intros temp fmt.
  assert (width temp = 240 ∧ height temp = 120) as [Hw Hh] by (by vm_compute).
  split; [apply canvas_120_wf|]. split; [lia|]. split; [lia|].
  destruct (redraw_aircraft_title fmt temp [] canvas_120_wf)
    as (m' & Hrun & _ & _ & Htitle & Hrest); [lia|lia|].
  rewrite Hw, Hh in *.
  exists m'. split; [exact Hrun|]. split_and!.
  - rewrite (Htitle 17) by lia. reflexivity.
  - rewrite (Htitle 200) by lia. reflexivity.
  - rewrite (Hrest (Forall_nil_2 _) 60 120); [reflexivity|unfold in_grid; lia|lia].
  - rewrite (Hrest (Forall_nil_2 _) 61 120); [reflexivity|unfold in_grid; lia|lia].
Defined.

(** ** A full rotation *)

(** One angle step: the cells under the beam take the pending value, the
    others keep theirs. *)
Lemma sweep_step_spec source angle_step dest :
  matrix_wf dest → matrix_wf source → same_dims source dest →
  let center_x := width dest ÷ 2 in
  let center_y := height dest ÷ 2 in
  let top := max_radius center_x center_y in
  let theta := sweep_theta angle_step in
  ∃ dest', sweep_step source angle_step dest = Some dest' ∧
    matrix_wf dest' ∧ same_dims dest' dest ∧
    ∀ x y,
      (in_grid (height dest) (width dest) y x →
       (∃ r, 0 ≤ r ≤ top ∧ beam_hits center_x center_y theta r x y) →
       cell dest' y x = cell source y x) ∧
      ((∀ r, 0 ≤ r ≤ top → ¬ beam_hits center_x center_y theta r x y) →
       cell dest' y x = cell dest y x) ∧
      (cell dest' y x = cell source y x ∨ cell dest' y x = cell dest y x).
Proof.
  intros Hwf Hwfs Hdims center_x center_y top theta. unfold sweep_step.
  cbv zeta. fold center_x center_y top theta. unfold sweep_upto.
  destruct (for_range_inv
    (sweep_radius source center_x center_y theta)
    (λ done d, matrix_wf d ∧ same_dims d dest ∧
       ∀ x y,
         (in_grid (height dest) (width dest) y x →
          (∃ r, r ∈ done ∧ beam_hits center_x center_y theta r x y) →
          cell d y x = cell source y x) ∧
         ((∀ r, r ∈ done → ¬ beam_hits center_x center_y theta r x y) →
          cell d y x = cell dest y x) ∧
         (cell d y x = cell source y x ∨ cell d y x = cell dest y x))
    0 (top + 1) dest) as (dest' & Hrun & Hwf' & Hdims' & Hcells).
  - split; [done|]. split; [done|]. intros x y. split_and!.
    + intros _ (r & Hr & _). by apply elem_of_nil in Hr.
    + done.
    + by right.
  - intros done i d _ (Hwfd & [Hhd Hwd] & Hinv).
    destruct (sweep_radius_spec source center_x center_y theta i d Hwfd Hwfs)
      as (d' & Hstep & Hwfd' & [Hh' Hw'] & Hcell);
      [destruct Hdims; split; congruence|].
    exists d'. split; [done|]. split; [done|]. split; [split; congruence|].
    intros x y. rewrite Hcell, Hhd, Hwd.
    destruct (Hinv x y) as (Hhit & Hmiss & Hsome).
    case_decide as Hi.
    + split_and!; [done| |by left]. intros Hnone. exfalso.
      apply (Hnone i); [|apply Hi]. apply elem_of_app. right. by left.
    + split_and!; [| |done].
      * intros Hin (r & Hr & Hb). apply Hhit; [done|]. exists r. split; [|done].
        apply elem_of_app in Hr as [Hr|Hr]; [done|].
        apply list_elem_of_singleton in Hr as ->. exfalso. by apply Hi.
      * intros Hnone. apply Hmiss. intros r Hr. apply Hnone.
        apply elem_of_app. by left.
  - exists dest'. split; [done|]. split; [done|]. split; [done|].
    intros x y. destruct (Hcells x y) as (Hhit & Hmiss & Hsome). split_and!.
    + intros Hin (r & Hr & Hb). apply Hhit; [done|]. exists r. split; [|done].
      apply elem_of_seqZ. lia.
    + intros Hnone. apply Hmiss. intros r Hr. apply Hnone.
      apply elem_of_seqZ in Hr. lia.
    + done.
Qed.

Lemma sweep_theta_0 : sweep_theta 0 = 0%R.
Proof.
  unfold sweep_theta, Rdiv. change (IZR (0 * 2)) with 0%R.
  by rewrite !Rmult_0_l.
Qed.

(** At angle step 0 the beam runs along the centre row to the right. *)
Lemma beam_hits_right_ray center_x center_y r :
  beam_hits center_x center_y (sweep_theta 0) r (center_x + r) center_y.
Proof.
  rewrite sweep_theta_0. split.
  - unfold sweep_x. rewrite cos_0, Rmult_1_r, double_to_int_IZR. lia.
  - unfold sweep_y. rewrite sin_0, Rmult_0_r.
    change 0%R with (IZR 0). rewrite double_to_int_IZR. lia.
Qed.

(** X12: a full rotation of [sonar_sweep_update] never leaves the canvas;
    afterwards every cell some beam position reaches holds the source
    cell, every other cell is unchanged; the centre row from the centre to
    the right edge is always reached; sweeping a canvas onto itself
    changes nothing. *)
Theorem sonar_sweep_update_cells dest source :
  matrix_wf dest → matrix_wf source → same_dims source dest →
  let center_x := width dest ÷ 2 in
  let center_y := height dest ÷ 2 in
  let top := max_radius center_x center_y in
  let swept x y :=
    ∃ angle_step r, 0 ≤ angle_step < num_angles ∧ 0 ≤ r ≤ top ∧
      beam_hits center_x center_y (sweep_theta angle_step) r x y in
  ∃ dest', sonar_sweep_update dest source = Some dest' ∧
    matrix_wf dest' ∧ same_dims dest' dest ∧
    (∀ x y, in_grid (height dest) (width dest) y x → swept x y →
       cell dest' y x = cell source y x) ∧
    (∀ x y, ¬ swept x y → cell dest' y x = cell dest y x) ∧
    (center_x * center_x + center_y * center_y < CInt.INT_MAX →
     0 < height dest →
     ∀ x, center_x ≤ x < width dest →
       cell dest' center_y x = cell source center_y x) ∧
    (source = dest → dest' = dest).
Proof.
  intros Hwf Hwfs Hdims center_x center_y top swept. unfold sonar_sweep_update.
  destruct (for_range_inv (sweep_step source)
    (λ done d, matrix_wf d ∧ same_dims d dest ∧
       ∀ x y,
         (in_grid (height dest) (width dest) y x →
          (∃ a r, a ∈ done ∧ 0 ≤ r ≤ top ∧
             beam_hits center_x center_y (sweep_theta a) r x y) →
          cell d y x = cell source y x) ∧
         ((∀ a r, a ∈ done → 0 ≤ r ≤ top →
             ¬ beam_hits center_x center_y (sweep_theta a) r x y) →
          cell d y x = cell dest y x) ∧
         (cell d y x = cell source y x ∨ cell d y x = cell dest y x))
    0 num_angles dest) as (dest' & Hrun & Hwf' & Hdims' & Hcells).
  - split; [done|]. split; [done|]. intros x y. split_and!.
    + intros _ (a & r & Ha & _). by apply elem_of_nil in Ha.
    + done.
    + by right.
  - intros done a d _ (Hwfd & [Hhd Hwd] & Hinv).
    destruct (sweep_step_spec source a d Hwfd Hwfs)
      as (d' & Hstep & Hwfd' & [Hh' Hw'] & Hcell);
      [destruct Hdims; split; congruence|].
    rewrite Hhd, Hwd in Hcell. fold center_x center_y top in Hcell.
    exists d'. split; [done|]. split; [done|]. split; [split; congruence|].
    intros x y. destruct (Hinv x y) as (Hhit & Hmiss & Hsome).
    destruct (Hcell x y) as (Hhit' & Hmiss' & Hsome').
    split_and!.
    + intros Hin (a' & r & Ha' & Hr & Hb).
      apply elem_of_app in Ha' as [Ha'|Ha'].
      * destruct Hsome' as [->| ->]; [done|]. apply Hhit; [done|].
        by exists a', r.
      * apply list_elem_of_singleton in Ha' as ->. apply Hhit'; [done|].
        by exists r.
    + intros Hnone. rewrite Hmiss'.
      * apply Hmiss. intros a' r Ha' Hr. apply Hnone; [|done].
        apply elem_of_app. by left.
      * intros r Hr. apply Hnone; [|done]. apply elem_of_app. right. by left.
    + destruct Hsome' as [->| ->]; [by left|done].
  - assert (∀ a, a ∈ seqZ 0 (num_angles - 0) ↔ 0 ≤ a < num_angles) as Hseq
      by (intros a; rewrite elem_of_seqZ; lia).
    exists dest'. split; [done|]. split; [done|]. split; [done|].
    assert (∀ x y, in_grid (height dest) (width dest) y x → swept x y →
              cell dest' y x = cell source y x) as Hswept.
    { intros x y Hin (a & r & Ha & Hr & Hb).
      destruct (Hcells x y) as (Hhit & _). apply Hhit; [done|].
      exists a, r. by rewrite Hseq. }
    split_and!.
    + done.
    + intros x y Hnot. destruct (Hcells x y) as (_ & Hmiss & _).
      apply Hmiss. intros a r Ha Hr Hb. apply Hnot. exists a, r.
      by rewrite <- Hseq.
    + intros Hsmall Hh x Hx.
      pose proof Hwf as ((Hh0 & Hw0 & _) & _).
      assert (0 ≤ center_x ∧ 0 ≤ center_y ∧ width dest ≤ 2 * center_x + 1 ∧
              center_y < height dest) as (Hcx & Hcy & Hwd & Hcyh).
      { unfold center_x, center_y. rewrite !Z.quot_div_nonneg by lia.
        clear -Hh Hh0 Hw0. Z.div_mod_to_equations. lia. }
      apply Hswept; [unfold in_grid; lia|].
      exists 0, (x - center_x). split; [unfold num_angles; lia|]. split.
      * unfold top. rewrite max_radius_floor by lia.
        assert (center_x ≤ Z.sqrt (center_x * center_x + center_y * center_y)).
        { apply Z.sqrt_le_square; nia. }
        lia.
      * replace x with (center_x + (x - center_x)) at 2 by lia.
        apply beam_hits_right_ray.
    + intros ->. apply matrix_ext; [done|done|done|].
      intros row col. destruct (Hcells col row) as (_ & _ & [?|?]); done.
Qed.

Lemma sonar_sweep_update_cells_witness :
  let dest := create_square_matrix 120 in
  ∃ source,
    (m ← display_symbol dest 100 60; store_weather m 60 200 3) = Some source ∧
    matrix_wf dest ∧ matrix_wf source ∧ same_dims source dest ∧
    cell source 60 200 = (Some "X"%char, Some 3) ∧
    ∃ dest', sonar_sweep_update dest source = Some dest' ∧
      cell dest' 60 200 = (Some "X"%char, Some 3).
Proof.
  intros dest.
  pose proof canvas_120_wf as Hwf. fold dest in Hwf.
  assert (width dest = 240 ∧ height dest = 120) as [Hw Hh] by (by vm_compute).
  destruct (display_symbol_spec dest 100 60 Hwf)
    as (m1 & Hm1 & Hwf1 & [Hh1 Hw1] & Hwe1 & Hda1).
  destruct (store_weather_spec m1 60 200 3 Hwf1)
    as (source & Hm2 & Hwfs & [Hh2 Hw2] & Hda2 & Hwe2);
    [rewrite Hh1, Hw1, Hh, Hw; unfold in_grid; lia|].
  assert (same_dims source dest) as Hdims by (split; congruence).
  assert (cell source 60 200 = (Some "X"%char, Some 3)) as Hcell.
  { unfold cell. rewrite Hwe2, Hda2, Hda1, Hh, Hw.
    change (CInt.mul 100 2) with 200.
    rewrite decide_True by (unfold in_grid; lia).
    by rewrite decide_True by done. }
  exists source. split.
  { rewrite Hm1. cbn [mbind option_bind]. exact Hm2. }
  split; [done|]. split; [done|]. split; [done|]. split; [done|].
  destruct (sonar_sweep_update_cells dest source Hwf Hwfs Hdims)
    as (dest' & Hrun & _ & _ & _ & _ & Hray & _).
  exists dest'. split; [done|]. rewrite <- Hcell.
  rewrite Hw, Hh in Hray. change (120 ÷ 2) with 60 in Hray.
  change (240 ÷ 2) with 120 in Hray.
  apply Hray; [unfold CInt.INT_MAX; lia|lia|lia].
Defined.

(** ** Runs of the control loop *)

Section Loop.

Variable format_f1 : double → string.

Lemma weather_refresh_spec current_time rand temp last :
  matrix_wf temp →
  ∃ temp' last', weather_refresh current_time rand temp last = Some (temp', last') ∧
    matrix_wf temp' ∧ same_dims temp' temp ∧ data temp' = data temp ∧
    (last' = last ∨ last' = current_time) ∧
    ∀ y x cur, load (weather temp) y x = Some cur →
      ∃ cur', load (weather temp') y x = Some cur' ∧ cur ≤ cur'.
Proof.
  intros Hwf. unfold weather_refresh. case_decide.
  - destruct (fetch_weather_data_cells rand temp Hwf)
      as (m' & -> & Hwf' & Hdims & Hdata & Hl).
    exists m', current_time. split; [done|]. split; [done|]. split; [done|].
    split; [done|]. split; [by right|].
    intros y x cur Hcur. rewrite (Hl _ _ _ Hcur). eexists. split; [done|].
    apply merge_all_ge.
  - exists temp, last. split_and!; try done; [by left|].
    intros y x cur Hcur. exists cur. split; [done|lia].
Qed.

Lemma aircraft_refresh_spec current_time fetched temp last :
  matrix_wf temp → 2 ≤ width temp → 7 ≤ height temp →
  ∃ temp' last',
    aircraft_refresh format_f1 current_time fetched temp last = Some (temp', last') ∧
    matrix_wf temp' ∧ same_dims temp' temp ∧ weather temp' = weather temp ∧
    (last' = last ∨ last' = current_time).
Proof.
  intros Hwf Hw Hh. unfold aircraft_refresh. case_decide.
  - destruct fetched as [aircraft_list|].
    + destruct (redraw_aircraft_spec format_f1 temp aircraft_list Hwf Hw Hh)
        as (m' & -> & Hwf' & Hdims & Hwe & _).
      exists m', current_time. split_and!; try done. by right.
    + exists temp, current_time. split_and!; try done. by right.
  - exists temp, last. split_and!; try done. by left.
Qed.

Lemma main_iteration_spec current_time rand fetched st :
  state_wf st → 2 ≤ width (screen st) → 7 ≤ height (screen st) →
  0 ≤ current_angle st →
  ∃ st', main_iteration format_f1 current_time rand fetched st = Some st' ∧
    state_wf st' ∧ same_dims (screen st') (screen st) ∧
    current_angle st' = (current_angle st + 1) `mod` num_angles ∧
    (∀ y x cur, load (weather (temp_screen st)) y x = Some cur →
       ∃ cur', load (weather (temp_screen st')) y x = Some cur' ∧ cur ≤ cur').
Proof.
  intros (Hwf & Hwft & [Hht Hwt]) Hw Hh Ha. unfold main_iteration.
  destruct (weather_refresh_spec current_time rand (temp_screen st)
              (last_weather_fetch st) Hwft)
    as (t1 & l1 & -> & Hwf1 & [Hh1 Hw1] & _ & _ & Hmono).
  cbn [mbind option_bind].
  destruct (aircraft_refresh_spec current_time fetched t1 (last_fetch_time st) Hwf1)
    as (t2 & l2 & -> & Hwf2 & [Hh2 Hw2] & Hwe2 & _); [lia..|].
  cbn [mbind option_bind].
  destruct (sweep_step_wf t2 (current_angle st) (screen st) Hwf Hwf2)
    as (v & -> & Hwfv & [Hhv Hwv]); [split; congruence|].
  cbn [mbind option_bind]. eexists. split; [done|]. simpl.
  split; [split_and!; try done; split; simpl; congruence|].
  split; [done|]. split.
  - rewrite Z.rem_mod_nonneg; [done|lia|unfold num_angles; lia].
  - intros y x cur Hcur. rewrite Hwe2. by apply Hmono.
Qed.

End Loop.

(** X13: the loop of [main] never leaves its canvases, whatever the
    clock, the generator and the feed deliver: after any number of
    iterations both canvases are intact with their dimensions, the angle
    is the number of iterations modulo 720 past its start, and no cell of
    the pending canvas has lost weather intensity (weather is merged, never
    cleared). *)
Theorem main_loop_safe (format_f1 : double → string) ticks st0 :
  state_wf st0 → 2 ≤ width (screen st0) → 7 ≤ height (screen st0) →
  0 ≤ current_angle st0 < num_angles →
  ∃ st, main_loop format_f1 ticks st0 = Some st ∧
    state_wf st ∧ same_dims (screen st) (screen st0) ∧
    current_angle st =
      (current_angle st0 + Z.of_nat (length ticks)) `mod` num_angles ∧
    (∀ y x cur, load (weather (temp_screen st0)) y x = Some cur →
       ∃ cur', load (weather (temp_screen st)) y x = Some cur' ∧ cur ≤ cur').
Proof.
  revert st0. induction ticks as [|t rest IH]; intros st0 Hwf Hw Hh Ha.
  - exists st0. split; [done|]. split; [done|]. split; [done|]. split.
    + simpl. rewrite Z.add_0_r, Z.mod_small; [done|lia].
    + intros y x cur Hcur. exists cur. split; [done|lia].
  - simpl main_loop.
    destruct (main_iteration_spec format_f1 (tick_time t) (tick_rand t)
                (tick_fetched t) st0 Hwf Hw Hh)
      as (st1 & -> & Hwf1 & [Hh1 Hw1] & Ha1 & Hmono1); [lia|].
    cbn [mbind option_bind].
    assert (0 ≤ current_angle st1 < num_angles) as Hrange.
    { rewrite Ha1. apply Z.mod_pos_bound. by unfold num_angles. }
    destruct (IH st1 Hwf1) as (st & Hrun & Hwfst & [Hh2 Hw2] & Ha2 & Hmono2);
      [lia..|].
    exists st. split; [done|]. split; [done|].
    split; [split; congruence|]. split.
    + rewrite Ha2, Ha1, Zplus_mod_idemp_l. f_equal. simpl length. lia.
    + intros y x cur Hcur. destruct (Hmono1 _ _ _ Hcur) as (c1 & Hc1 & Hle1).
      destruct (Hmono2 _ _ _ Hc1) as (c2 & Hc2 & Hle2).
      exists c2. split; [done|lia].
Qed.

Lemma main_loop_safe_witness :
  let fmt := λ _ : double, "0.0"%string in
  let ticks := [ {| tick_time := 1700000000; tick_rand := λ _, 4;
                    tick_fetched := Some [] |};
                 {| tick_time := 1700000001; tick_rand := λ _, 4;
                    tick_fetched := None |} ] in
  state_wf initial_state ∧
  2 ≤ width (screen initial_state) ∧ 7 ≤ height (screen initial_state) ∧
  0 ≤ current_angle initial_state < num_angles ∧
  ∃ st, main_loop fmt ticks initial_state = Some st ∧
    current_angle st = 2 ∧ width (screen st) = 240 ∧ height (screen st) = 120.
Proof.
  intros fmt ticks.
  assert (width (screen initial_state) = 240 ∧
          height (screen initial_state) = 120) as [Hw Hh] by (by vm_compute).
  assert (0 ≤ current_angle initial_state < num_angles) as Ha by (by vm_compute).
  split; [apply initial_state_wf|]. split; [lia|]. split; [lia|].
  split; [done|].
  destruct (main_loop_safe fmt ticks initial_state initial_state_wf)
    as (st & Hrun & _ & [Hh' Hw'] & Hangle & _); [lia..|].
  exists st. split; [done|]. split; [exact Hangle|]. split; congruence.
Defined.

(** X14: an iteration of [main] first refreshes the pending canvas and
    then sweeps: the visible cells under the beam of the current angle show
    the pending canvas as refreshed in that same iteration, all other
    visible cells are unchanged. *)
Theorem main_iteration_reveals (format_f1 : double → string)
    current_time rand fetched st :
  state_wf st → 2 ≤ width (screen st) → 7 ≤ height (screen st) →
  let center_x := width (screen st) ÷ 2 in
  let center_y := height (screen st) ÷ 2 in
  let top := max_radius center_x center_y in
  let theta := sweep_theta (current_angle st) in
  ∃ st', main_iteration format_f1 current_time rand fetched st = Some st' ∧
    ∀ x y,
      (in_grid (height (screen st)) (width (screen st)) y x →
       (∃ r, 0 ≤ r ≤ top ∧ beam_hits center_x center_y theta r x y) →
       cell (screen st') y x = cell (temp_screen st') y x) ∧
      ((∀ r, 0 ≤ r ≤ top → ¬ beam_hits center_x center_y theta r x y) →
       cell (screen st') y x = cell (screen st) y x).
Proof.
  intros (Hwf & Hwft & [Hht Hwt]) Hw Hh center_x center_y top theta.
  unfold main_iteration.
  destruct (weather_refresh_spec current_time rand (temp_screen st)
              (last_weather_fetch st) Hwft)
    as (t1 & l1 & -> & Hwf1 & [Hh1 Hw1] & _).
  cbn [mbind option_bind].
  destruct (aircraft_refresh_spec format_f1 current_time fetched t1
              (last_fetch_time st) Hwf1)
    as (t2 & l2 & -> & Hwf2 & [Hh2 Hw2] & _); [lia..|].
  cbn [mbind option_bind].
  destruct (sweep_step_spec t2 (current_angle st) (screen st) Hwf Hwf2)
    as (v & -> & _ & _ & Hcells); [split; congruence|].
  cbn [mbind option_bind]. eexists. split; [done|]. simpl.
  intros x y. destruct (Hcells x y) as (Hhit & Hmiss & _). by split.
Qed.

Lemma main_iteration_reveals_witness :
  let fmt := λ _ : double, "0.0"%string in
  state_wf initial_state ∧
  2 ≤ width (screen initial_state) ∧ 7 ≤ height (screen initial_state) ∧
  beam_hits 120 60 (sweep_theta 0) 0 120 60 ∧
  ∃ st', main_iteration fmt 30 (λ _, 4) (Some []) initial_state = Some st' ∧
    cell (screen initial_state) 60 120 = (Some " "%char, Some 0) ∧
    cell (temp_screen st') 60 120 = (Some "+"%char, Some 0) ∧
    cell (screen st') 60 120 = (Some "+"%char, Some 0) ∧
    cell (temp_screen st') 0 0 = (Some "L"%char, Some 0) ∧
    cell (screen st') 0 0 = (Some " "%char, Some 0).
Proof.
  intros fmt.
  set (blank_canvas := clear_matrix (create_square_matrix 120)).
  assert (matrix_wf blank_canvas) as Hwf by apply clear_matrix_wf, canvas_120_wf.
  assert (width blank_canvas = 240 ∧ height blank_canvas = 120) as [Hw Hh]
    by (by vm_compute).
  assert (∀ r c, in_grid 120 240 r c →
            load (data blank_canvas) r c = Some " "%char ∧
            load (weather blank_canvas) r c = Some 0) as Hclear.
  { intros r c Hin. by apply clear_matrix_loads. }
  assert (∀ r c, in_grid 120 240 r c →
            cell blank_canvas r c = (Some " "%char, Some 0)) as Hblank.
  { intros r c Hin. unfold cell. by destruct (Hclear r c Hin) as [-> ->]. }
  assert (max_radius 120 60 = 135) as Htop.
  { rewrite max_radius_floor by (unfold CInt.INT_MAX; lia). by vm_compute. }
  pose proof (beam_hits_right_ray 120 60 0) as Hcentre.
  change (120 + 0) with 120 in Hcentre.
  destruct (redraw_aircraft_spec fmt blank_canvas [] Hwf)
    as (pending & Hredraw & Hwfp & [Hhp Hwp] & Hwep & Htitle & Hrest);
    [lia..|].
  assert (2 ≤ width (screen initial_state) ∧
          7 ≤ height (screen initial_state)) as [Hw2 Hh7].
  { change (screen initial_state) with blank_canvas. lia. }
  rewrite Hw, Hh in *.
  assert (cell pending 60 120 = (Some "+"%char, Some 0)) as Hp120.
  { unfold cell. rewrite Hwep.
    rewrite (Hrest (Forall_nil_2 _) 60 120) by (unfold in_grid; lia).
    by rewrite (proj2 (Hclear 60 120 ltac:(unfold in_grid; lia))). }
  assert (cell pending 0 0 = (Some "L"%char, Some 0)) as Hp0.
  { unfold cell. rewrite Hwep, (Htitle 0) by lia.
    by rewrite (proj2 (Hclear 0 0 ltac:(unfold in_grid; lia))). }
  split; [apply initial_state_wf|]. split; [done|]. split; [done|].
  split; [done|].
  destruct (main_iteration_reveals fmt 30 (λ _, 4) (Some []) initial_state
              initial_state_wf)
    as (st' & Hrun & Hcells); [done..|].
  assert (temp_screen st' = pending) as Htemp.
  { unfold main_iteration, weather_refresh, aircraft_refresh in Hrun.
    change (temp_screen initial_state) with blank_canvas in Hrun.
    change (screen initial_state) with blank_canvas in Hrun.
    change (last_weather_fetch initial_state) with 0 in Hrun.
    change (last_fetch_time initial_state) with 0 in Hrun.
    change (current_angle initial_state) with 0 in Hrun.
    rewrite decide_False in Hrun by (unfold weather_fetch_interval; lia).
    cbn [mbind option_bind] in Hrun.
    rewrite decide_True in Hrun by (unfold fetch_interval; lia).
    rewrite Hredraw in Hrun. cbn [mbind option_bind] in Hrun.
    destruct (sweep_step pending 0 blank_canvas) as [v|]; [|done].
    cbn [mbind option_bind] in Hrun. by injection Hrun as <-. }
  exists st'. split; [done|]. 
  change (screen initial_state) with blank_canvas in Hcells.
  change (current_angle initial_state) with 0 in Hcells.
  rewrite Hw, Hh in Hcells.
  change (240 ÷ 2) with 120 in Hcells. change (120 ÷ 2) with 60 in Hcells.
  rewrite Htop in Hcells. rewrite Htemp in *.
  split; [apply Hblank; unfold in_grid; lia|]. split; [done|]. split.
  - destruct (Hcells 120 60) as [Hhit _]. rewrite Hhit; [done|unfold in_grid; lia|].
    exists 0. split; [lia|done].
  - split; [done|]. destruct (Hcells 0 0) as [_ Hmiss]. rewrite Hmiss.
    + apply Hblank. unfold in_grid. lia.
    + intros r Hr [Hx _]. rewrite sweep_theta_0 in Hx. unfold sweep_x in Hx.
      rewrite cos_0, Rmult_1_r, double_to_int_IZR in Hx. lia.
Defined.

(** ** The download buffer *)

(** Copying [k] bytes into a block of [k + 1] bytes and terminating it. *)
Lemma copy_and_terminate {A} (bytes block : list A) (nul : A) :
  length block = S (length bytes) →
  <[length bytes := nul]> (list_inserts 0 bytes block) = bytes ++ [nul].
Proof.
  intros Hlen. rewrite <- (take_drop (length bytes) block).
  rewrite list_inserts_0_r by (rewrite length_take; lia).
  replace (length bytes) with (length bytes + 0)%nat at 1 by lia.
  rewrite insert_app_r. f_equal.
  destruct (drop (length bytes) block) as [|b [|b' rest]] eqn:Hdrop; try done.
  - apply (f_equal length) in Hdrop. rewrite length_drop in Hdrop. simpl in *. lia.
  - apply (f_equal length) in Hdrop. rewrite length_drop in Hdrop. simpl in *. lia.
Qed.

Lemma WriteMemoryCallback_append contents mem prefix last :
  MemoryStruct.memory mem = (Some <$> prefix) ++ [last] →
  MemoryStruct.size mem = Z.of_nat (length prefix) →
  (WriteMemoryCallback contents 1 (Z.of_nat (length contents)) true mem).1 =
    Z.of_nat (length contents) ∧
  holds (WriteMemoryCallback contents 1 (Z.of_nat (length contents)) true mem).2
        (prefix ++ contents).
Proof.
  intros Hmem Hsize. unfold WriteMemoryCallback, holds. cbv zeta. simpl.
  rewrite Hmem, Hsize, Z.mul_1_l. split; [done|].
  rewrite <- !Nat2Z.inj_add, !Nat2Z.id, firstn_all.
  split; [|by rewrite length_app].
  replace (Z.to_nat (Z.of_nat (length prefix + length contents) + 1))
    with (length prefix + length contents + 1)%nat by lia.
  assert (length (Some <$> prefix) = length prefix) as Hn
    by apply length_fmap.
  assert (length (Some <$> contents) = length contents) as Hk
    by apply length_fmap.
  rewrite resize_app_ge by lia.
  rewrite <- Hn at 2. rewrite <- (Nat.add_0_r (length (Some <$> prefix))).
  rewrite list_inserts_app_r.
  rewrite Nat.add_0_r, Hn.
  rewrite <- Hn at 1. rewrite insert_app_r, <- Hk.
  rewrite copy_and_terminate.
  - by rewrite fmap_app, <- app_assoc.
  - rewrite length_resize. lia.
Qed.

(** X15: the callback accumulates the response: once at least one piece
    has arrived, the buffer holds the pieces one after the other followed
    by a terminator, and [size] counts them (the terminator apart),
    whatever byte stood at position [size] before.  Each call answers the
    number of bytes it was given. *)
Theorem WriteMemoryCallback_accumulates mem prefix last contents chunks :
  MemoryStruct.memory mem = (Some <$> prefix) ++ [last] →
  MemoryStruct.size mem = Z.of_nat (length prefix) →
  (WriteMemoryCallback contents 1 (Z.of_nat (length contents)) true mem).1 =
    Z.of_nat (length contents) ∧
  holds (receive (contents :: chunks) mem)
        (prefix ++ concat (contents :: chunks)).
Proof.
  intros Hmem Hsize.
  split; [by apply (WriteMemoryCallback_append contents mem prefix last)|].
  revert mem prefix last contents Hmem Hsize.
  induction chunks as [|next chunks IH]; intros mem prefix last contents Hmem Hsize.
  - simpl. rewrite app_nil_r.
    by apply (WriteMemoryCallback_append contents mem prefix last).
  - destruct (WriteMemoryCallback_append contents mem prefix last Hmem Hsize)
      as [_ [Hmem1 Hsize1]].
    change (receive (contents :: next :: chunks) mem)
      with (receive (next :: chunks)
              (WriteMemoryCallback contents 1 (Z.of_nat (length contents)) true mem).2).
    change (concat (contents :: next :: chunks))
      with (contents ++ concat (next :: chunks)).
    rewrite app_assoc. by apply (IH _ _ (Some NUL)).
Qed.

Lemma WriteMemoryCallback_accumulates_witness :
  let chunks := [list_ascii_of_string "[1, 2"; list_ascii_of_string ", 3]"] in
  MemoryStruct.memory chunk_init = (Some <$> []) ++ [None] ∧
  MemoryStruct.size chunk_init = Z.of_nat (length (@nil ascii)) ∧
  holds (receive chunks chunk_init) (list_ascii_of_string "[1, 2, 3]") ∧
  MemoryStruct.size (receive chunks chunk_init) = 9.
Proof.
  intros chunks. split; [done|]. split; [done|].
  destruct (WriteMemoryCallback_accumulates chunk_init [] None
              (list_ascii_of_string "[1, 2")
              [list_ascii_of_string ", 3]"] eq_refl eq_refl) as [_ Hholds].
  split; [exact Hholds|]. by vm_compute.
Defined.
